(** * TBTK: hopping amplitudes, the density-of-states buffer and the
      diagonalization driver

    A shallow embedding of
    - [Lib/include/Core/TBTK/HoppingAmplitude.h] (inline members),
    - [TBTK/calc/TightBindingLib/src/DOS.cpp] (the constructor),
    - [TBTK/calc/TightBindingLib/include/DiagonalizationSolver.h]
      (inline members),
    - [Lib/include/Properties/AbstractProperty.h] (the whole class, over
      a memory of objects and arrays),
    - WrapperRule.cpp (the whole file),
    followed by the properties proved about them.

    Conventions.  A C++ [double] is a binary64 primitive float; an [int]
    is a [Z] whose arithmetic is checked against the 32-bit range; a raw
    pointer is an [option] ([None] is the null pointer); a call that
    cannot complete (null dereference, subscript outside the buffer,
    signed overflow, a failed lookup) has outcome [Fails]. *)

From Stdlib Require Import ZArith List String Floats Lia Bool.
From stdpp Require Import base option list gmap.
From Equations Require Import Equations.
Import ListNotations.
Open Scope Z_scope.

(** [simpl] unfolds string concatenation on a string that starts with a
    character, as it does for any fixpoint. *)
Arguments String.append !s1 s2 /.

(* ===================================================================== *)
(** * Part I: the embedding *)
(* ===================================================================== *)

(** ** Outcomes of calls *)

Inductive outcome (A : Type) : Type :=
| Returns (a : A)
| Fails.
Arguments Returns {A} a.
Arguments Fails {A}.

Definition bind {A B : Type} (x : outcome A) (f : A -> outcome B) : outcome B :=
  match x with
  | Returns a => f a
  | Fails => Fails
  end.

Notation "'let!' x ':=' c 'in' k" := (bind c (fun x => k))
  (at level 10, x name, c at level 100, k at level 200).

(** Dereferencing a raw pointer. *)
Definition deref {A : Type} (p : option A) : outcome A :=
  match p with
  | Some a => Returns a
  | None => Fails
  end.

(** [buf[i]] on a raw array: defined only inside the allocation. *)
Definition subscript {A : Type} (buf : list A) (i : Z) : outcome A :=
  if 0 <=? i then deref (buf !! Z.to_nat i) else Fails.

(** ** [int] *)

Definition INT_MAX : Z := 2147483647.
Definition INT_MIN : Z := -2147483648.

Definition in_int (z : Z) : bool := (INT_MIN <=? z) && (z <=? INT_MAX).

Definition int_mul (a b : Z) : outcome Z :=
  if in_int (a * b) then Returns (a * b) else Fails.

Definition int_add (a b : Z) : outcome Z :=
  if in_int (a + b) then Returns (a + b) else Fails.

(** ** [std::complex<double>] *)

Record complex : Type := { real : float; imag : float }.

Definition conj (z : complex) : complex :=
  {| real := real z; imag := (- imag z)%float |}.

Definition czero : complex := {| real := 0%float; imag := 0%float |}.

(** ** [Index] *)

(** Modelled from the spec: [TBTK/Index.h] is not among the sources.  An
    Index is "an ordered sequence of signed integers". *)
Definition Index : Type := list Z.

(* --------------------------------------------------------------------- *)
(** ** HoppingAmplitude.h *)
(* --------------------------------------------------------------------- *)

Module HoppingAmplitude.

(** [enum HermitianConjugate {HC};] *)
Inductive HermitianConjugate : Type := HC.

(** The private members, in declaration order.  [amplitudeCallback] is a
    function pointer; [None] is [nullptr]. *)
Record t : Type := {
  amplitude : complex;
  amplitudeCallback : option (Index -> Index -> complex);
  fromIndex : Index;
  toIndex : Index
}.

Definition getAmplitude (h : t) : complex :=
  match amplitudeCallback h with
  | Some callback => callback (toIndex h) (fromIndex h)
  | None => amplitude h
  end.

Definition getToIndex (h : t) : Index := toIndex h.

Definition getFromIndex (h : t) : Index := fromIndex h.

Definition getIsCallbackDependent (h : t) : bool :=
  match amplitudeCallback h with
  | None => false
  | Some _ => true
  end.

Definition getAmplitudeCallback (h : t) : option (Index -> Index -> complex) :=
  amplitudeCallback h.

(** Modelled from the spec: [getHermitianConjugate] is declared in the
    header and defined in HoppingAmplitude.cpp, which is not among the
    sources.  The spec describes its result as the mirrored entry
    "(fromIndex, toIndex, conjugate(value))": the two indices change
    places and the value is conjugated, whichever source it comes from.
    A fixed value is conjugated as it is; a callback "(to, from) ->
    complex value" is replaced by the callback that, asked for
    [(to, from)], conjugates what the entry's callback answers for
    [(from, to)], so that the mirrored entry is evaluated, like the
    entry, each time its value is asked for. *)
Definition getHermitianConjugate (h : t) : t :=
  {| amplitude := conj (amplitude h);
     amplitudeCallback :=
       match amplitudeCallback h with
       | Some callback => Some (fun to from => conj (callback from to))
       | None => None
       end;
     fromIndex := toIndex h;
     toIndex := fromIndex h |}.

(** [operator+(const HermitianConjugate hc)] *)
Definition operator_plus (h : t) (hc : HermitianConjugate) : t * t :=
  (h, getHermitianConjugate h).

Section ToString.

(** [std::to_string(double)] of the C++ library and [Index::toString] of
    the absent Index.h. *)
Variable to_string : float -> string.
Variable Index_toString : Index -> string.

Definition toString (h : t) : string :=
  let str := EmptyString in
  (str ++
    (((((((("(" ++ to_string (real (amplitude h)))
        ++ ", ") ++ to_string (imag (amplitude h)))
      ++ ")")
      ++ ", ") ++ Index_toString (toIndex h))
      ++ ", ") ++ Index_toString (fromIndex h)))%string.

End ToString.

End HoppingAmplitude.

(* --------------------------------------------------------------------- *)
(** ** DOS.cpp *)
(* --------------------------------------------------------------------- *)

Module DOS.

Record t : Type := {
  lowerBound : float;
  upperBound : float;
  resolution : Z;
  data : list float
}.

(** [new double[n]]: [n] cells whose contents are whatever the allocator
    hands out ([junk]); a negative length throws.  Memory is taken to be
    large enough for the request. *)
Definition new_double_array (junk : nat -> float) (n : Z) : outcome (list float) :=
  if 0 <=? n then Returns (map junk (seq 0 (Z.to_nat n))) else Fails.

(** [for(int n = 0; n < resolution; n++) data[n] = 0.;] from counter
    value [n] on. *)
Equations zero_loop (n resolution : Z) (data : list float) : list float
  by wf (Z.to_nat (resolution - n)) lt :=
zero_loop n resolution data with Z_lt_dec n resolution := {
  | left _ => zero_loop (n + 1) resolution (<[Z.to_nat n := 0%float]> data)
  | right _ => data
}.
Next Obligation. lia. Qed.

(** [DOS::DOS(double lowerBound, double upperBound, int resolution)] *)
Definition DOS (junk : nat -> float) (lowerBound upperBound : float)
    (resolution : Z) : outcome t :=
  let! data := new_double_array junk resolution in
  Returns {| lowerBound := lowerBound;
             upperBound := upperBound;
             resolution := resolution;
             data := zero_loop 0 resolution data |}.

End DOS.

(* --------------------------------------------------------------------- *)
(** ** DiagonalizationSolver.h *)
(* --------------------------------------------------------------------- *)

Module DiagonalizationSolver.

(** Modelled from the spec: Model.h is not among the sources.  Of a
    Model the driver only calls [getBasisSize()] and
    [getBasisIndex(index)]; the latter "fails with a not found condition
    if the concrete Index was never declared". *)
Record Model : Type := {
  getBasisSize : Z;
  getBasisIndex : Index -> outcome Z
}.

(** The address of a self-consistency callback, a function from a
    pointer to the driver to [bool]. *)
Definition fnptr : Type := nat.

(** The private members, in declaration order. *)
Record t : Type := {
  model : option Model;
  hamiltonian : option (list complex);
  eigenValues : option (list float);
  eigenVectors : option (list complex);
  maxIterations : Z;
  scCallback : option fnptr
}.

Definition setModel (s : t) (m : Model) : t :=
  {| model := Some m;
     hamiltonian := hamiltonian s;
     eigenValues := eigenValues s;
     eigenVectors := eigenVectors s;
     maxIterations := maxIterations s;
     scCallback := scCallback s |}.

Definition setSCCallback (s : t) (callback : option fnptr) : t :=
  {| model := model s;
     hamiltonian := hamiltonian s;
     eigenValues := eigenValues s;
     eigenVectors := eigenVectors s;
     maxIterations := maxIterations s;
     scCallback := callback |}.

Definition setMaxIterations (s : t) (n : Z) : t :=
  {| model := model s;
     hamiltonian := hamiltonian s;
     eigenValues := eigenValues s;
     eigenVectors := eigenVectors s;
     maxIterations := n;
     scCallback := scCallback s |}.

(** The three accessors.  The first two hand out the pointer member. *)
Definition getEigenValues (s : t) : outcome (option (list float)) :=
  Returns (eigenValues s).

Definition getEigenVectors (s : t) : outcome (option (list complex)) :=
  Returns (eigenVectors s).

(** [eigenVectors[model->getBasisSize()*state + model->getBasisIndex(index)]] *)
Definition getAmplitude (s : t) (state : Z) (index : Index) : outcome complex :=
  let! m := deref (model s) in
  let! row := int_mul (getBasisSize m) state in
  let! position := getBasisIndex m index in
  let! offset := int_add row position in
  let! vectors := deref (eigenVectors s) in
  subscript vectors offset.

Definition getModel (s : t) : option Model := model s.

(** The life-cycle states of the spec, read off the members: the driver
    is Solved when a model is set and both eigen buffers are allocated
    with the sizes [N] and [N*N] of that model, [N*N] being an [int]. *)
Definition isSolved (s : t) : bool :=
  match model s, eigenValues s, eigenVectors s with
  | Some m, Some values, Some vectors =>
      let N := getBasisSize m in
      (0 <=? N) && (N * N <=? INT_MAX)
      && (Z.of_nat (length values) =? N)
      && (Z.of_nat (length vectors) =? N * N)
  | _, _, _ => false
  end.

Definition isUnconfigured (s : t) : bool :=
  match model s with
  | None => true
  | Some _ => false
  end.

(** The invariant of [run()] between its steps: the model is [m], the
    Hamiltonian buffer is allocated, and the configuration is the one
    [run()] started with. *)
Definition ready (m : Model) (ceiling : Z) (callback : option fnptr) (s : t) : Prop :=
  model s = Some m
  /\ is_Some (hamiltonian s)
  /\ maxIterations s = ceiling
  /\ scCallback s = callback.

Section Run.

(** What [run()] meets outside the driver: the client's own state [Env]
    (read by callback amplitudes, written by the self-consistency
    callback), the functions behind the callback addresses, the dense
    assembly of the model's amplitudes, and the eigensolver, which takes
    the dimension and the matrix and gives eigenvalues and eigenvectors. *)
Variable Env : Type.
Variable code : fnptr -> t -> Env -> bool * Env.
Variable assemble : Model -> Env -> list complex.
Variable eigensolver : Z -> list complex -> list float * list complex.

(** Modelled from the spec: [init], [update], [solve] and [run] are
    declared in the header and defined in DiagonalizationSolver.cpp,
    which is not among the sources.  [init] "allocates Hamiltonian/eigen
    buffers sized to getBasisSize()". *)
Definition init (s : t) : outcome t :=
  let! m := deref (model s) in
  let N := Z.to_nat (getBasisSize m) in
  Returns {| model := model s;
             hamiltonian := Some (replicate (N * N) czero);
             eigenValues := Some (replicate N 0%float);
             eigenVectors := Some (replicate (N * N) czero);
             maxIterations := maxIterations s;
             scCallback := scCallback s |}.

(** Modelled from the spec: [update] "builds the dense Hermitian matrix
    by evaluating every amplitude", in place. *)
Definition update (s : t) (env : Env) : outcome t :=
  let! m := deref (model s) in
  let! _ := deref (hamiltonian s) in
  Returns {| model := model s;
             hamiltonian := Some (assemble m env);
             eigenValues := eigenValues s;
             eigenVectors := eigenVectors s;
             maxIterations := maxIterations s;
             scCallback := scCallback s |}.

(** Modelled from the spec: [solve] "invokes the eigensolver" on the
    Hamiltonian buffer and overwrites the eigen buffers. *)
Definition solve (s : t) : outcome t :=
  let! m := deref (model s) in
  let! H := deref (hamiltonian s) in
  let '(values, vectors) := eigensolver (getBasisSize m) H in
  Returns {| model := model s;
             hamiltonian := hamiltonian s;
             eigenValues := Some values;
             eigenVectors := Some vectors;
             maxIterations := maxIterations s;
             scCallback := scCallback s |}.

(** Modelled from the spec: the self-consistency loop.  "After each solve
    the callback inspects the driver and decides whether to continue; the
    driver rebuilds the Hamiltonian and re-solves, up to maxIterations."
    [iterations] is what is left of the ceiling, [solves] counts the
    solves made so far. *)
Fixpoint scLoop (iterations : nat) (callback : fnptr) (s : t) (env : Env)
    (solves : nat) : outcome (t * Env * nat) :=
  match iterations with
  | O => Returns (s, env, solves)
  | S iterations' =>
      let! s1 := solve s in
      let '(done, env1) := code callback s1 env in
      if done then Returns (s1, env1, S solves)
      else
        let! s2 := update s1 env1 in
        scLoop iterations' callback s2 env1 (S solves)
  end.

(** Modelled from the spec: [run()].  Buffers are allocated once, the
    Hamiltonian is built, and then either the loop runs (a callback is
    set) or the eigenproblem is solved once ("No callback => exactly one
    solve"; the header: "Diagonalizes ones if no self-consistency callback
    have been set").  The result carries the number of solves made. *)
Definition run (s : t) (env : Env) : outcome (t * Env * nat) :=
  let! s0 := init s in
  let! s1 := update s0 env in
  match scCallback s1 with
  | None =>
      let! s2 := solve s1 in
      Returns (s2, env, 1%nat)
  | Some callback =>
      scLoop (Z.to_nat (maxIterations s1)) callback s1 env 0
  end.

Definition solves_of (r : outcome (t * Env * nat)) : outcome nat :=
  match r with
  | Returns (_, _, n) => Returns n
  | Fails => Fails
  end.

End Run.

End DiagonalizationSolver.

(* --------------------------------------------------------------------- *)
(** ** Counted loops *)
(* --------------------------------------------------------------------- *)

(** [for(int n = start; n < bound; n++) body] over a program state [S]:
    the body may fail, and incrementing [n] past [INT_MAX] is an
    overflow. *)
Equations for_loop {S : Type} (n bound : Z) (body : Z -> S -> outcome S)
    (s : S) : outcome S by wf (Z.to_nat (bound - n)) lt :=
for_loop n bound body s with Z_lt_dec n bound := {
  | right _ => Returns s
  | left _ with body n s := {
      | Fails => Fails
      | Returns s' with Z_lt_dec n INT_MAX := {
          | left _ => for_loop (n + 1) bound body s'
          | right _ => Fails
        }
    }
}.
Next Obligation. lia. Qed.

(* --------------------------------------------------------------------- *)
(** ** AbstractProperty.h *)
(* --------------------------------------------------------------------- *)

Module AbstractProperty.

(** Addresses of AbstractProperty objects and of arrays made by
    [new DataType[...]]. *)
Definition oid : Type := positive.
Definition loc : Type := positive.

Section Class.

(** The template parameter, the allocator (the address it gives to a new
    array, given the addresses of the live ones) and the contents of the
    cells of a new array. *)
Variable DataType : Type.
Variable allocate : gset loc -> loc.
Variable junk : nat -> DataType.

(** The private members: [unsigned int size; DataType *data;]. *)
Record t : Type := {
  size : Z;
  data : option loc
}.

(** The objects and the arrays that are alive. *)
Record memory : Type := {
  objects : gmap oid t;
  arrays : gmap loc (list DataType)
}.

(** Member access through an object pointer. *)
Definition get_size (p : oid) (mem : memory) : outcome Z :=
  let! obj := deref (objects mem !! p) in Returns (size obj).

Definition get_data (p : oid) (mem : memory) : outcome (option loc) :=
  let! obj := deref (objects mem !! p) in Returns (data obj).

Definition set_size (p : oid) (n : Z) (mem : memory) : outcome memory :=
  let! obj := deref (objects mem !! p) in
  Returns {| objects := <[p := {| size := n; data := data obj |}]> (objects mem);
             arrays := arrays mem |}.

Definition set_data (p : oid) (d : option loc) (mem : memory) : outcome memory :=
  let! obj := deref (objects mem !! p) in
  Returns {| objects := <[p := {| size := size obj; data := d |}]> (objects mem);
             arrays := arrays mem |}.

(** [new DataType[n]] with [n] an [unsigned int]. *)
Definition new_array (n : Z) (mem : memory) : loc * memory :=
  let l := allocate (dom (arrays mem)) in
  (l, {| objects := objects mem;
         arrays := <[l := map junk (seq 0 (Z.to_nat n))]> (arrays mem) |}).

(** [delete [] p] for a non-null [p]: the array must be alive. *)
Definition delete_array (l : loc) (mem : memory) : outcome memory :=
  let! _ := deref (arrays mem !! l) in
  Returns {| objects := objects mem; arrays := delete l (arrays mem) |}.

(** [p[n]] as a value and [p[n] = v]. *)
Definition read (l : loc) (n : Z) (mem : memory) : outcome DataType :=
  let! cells := deref (arrays mem !! l) in subscript cells n.

Definition write (l : loc) (n : Z) (v : DataType) (mem : memory) : outcome memory :=
  let! cells := deref (arrays mem !! l) in
  let! _ := subscript cells n in
  Returns {| objects := objects mem;
             arrays := <[l := <[Z.to_nat n := v]> cells]> (arrays mem) |}.

(** The storage of an object whose constructor starts.  Every
    constructor writes both members before it reads them, so what the
    members hold at this point does not matter. *)
Definition enter_constructor (this : oid) (mem : memory) : memory :=
  {| objects := <[this := {| size := 0; data := None |}]> (objects mem);
     arrays := arrays mem |}.

(** The storage of an object whose destructor has run. *)
Definition leave_destructor (this : oid) (mem : memory) : memory :=
  {| objects := delete this (objects mem); arrays := arrays mem |}.

(** [setSize(unsigned int size)] *)
Definition setSize (this : oid) (n : Z) (mem : memory) : outcome memory :=
  let! mem := set_size this n mem in
  let! d := get_data this mem in
  let! mem := match d with
              | Some l => delete_array l mem
              | None => Returns mem
              end in
  let '(l, mem) := new_array n mem in
  set_data this (Some l) mem.

Definition getSize (this : oid) (mem : memory) : outcome Z :=
  get_size this mem.

Definition getData (this : oid) (mem : memory) : outcome (option loc) :=
  get_data this mem.

Definition getDataRW (this : oid) (mem : memory) : outcome (option loc) :=
  get_data this mem.

(** [AbstractProperty()] *)
Definition construct (this : oid) (mem : memory) : outcome memory :=
  let mem := enter_constructor this mem in
  let! mem := set_size this 0 mem in
  set_data this None mem.

(** The body of the copy loops: [data[n] = rhs.data[n];]. *)
Definition copy_cell (this rhs : oid) (n : Z) (mem : memory) : outcome memory :=
  let! from := get_data rhs mem in
  let! from := deref from in
  let! v := read from n mem in
  let! to := get_data this mem in
  let! to := deref to in
  write to n v mem.

(** What the copy constructor and the copy assignment share: everything
    from [size = rhs.size;] on. *)
Definition copy_members (this rhs : oid) (mem : memory) : outcome memory :=
  let! sz := get_size rhs mem in
  let! mem := set_size this sz mem in
  let! d := get_data rhs mem in
  match d with
  | None => set_data this None mem
  | Some _ =>
      let! sz := get_size this mem in
      let '(l, mem) := new_array sz mem in
      let! mem := set_data this (Some l) mem in
      let! bound := get_size this mem in
      for_loop 0 bound (copy_cell this rhs) mem
  end.

(** What the move constructor and the move assignment share. *)
Definition move_members (this rhs : oid) (mem : memory) : outcome memory :=
  let! sz := get_size rhs mem in
  let! mem := set_size this sz mem in
  let! d := get_data rhs mem in
  match d with
  | None => set_data this None mem
  | Some l =>
      let! mem := set_data this (Some l) mem in
      set_data rhs None mem
  end.

(** [AbstractProperty(const AbstractProperty &abstractProperty)] *)
Definition copy_construct (this rhs : oid) (mem : memory) : outcome memory :=
  copy_members this rhs (enter_constructor this mem).

(** [AbstractProperty(AbstractProperty &&abstractProperty)] *)
Definition move_construct (this rhs : oid) (mem : memory) : outcome memory :=
  move_members this rhs (enter_constructor this mem).

(** [~AbstractProperty()] *)
Definition destructor (this : oid) (mem : memory) : outcome memory :=
  let! d := get_data this mem in
  let! mem := match d with
              | Some l => delete_array l mem
              | None => Returns mem
              end in
  Returns (leave_destructor this mem).

(** [operator=(const AbstractProperty &rhs)] *)
Definition copy_assign (this rhs : oid) (mem : memory) : outcome memory :=
  copy_members this rhs mem.

(** [operator=(AbstractProperty &&rhs)] *)
Definition move_assign (this rhs : oid) (mem : memory) : outcome memory :=
  if decide (this = rhs) then Returns mem else move_members this rhs mem.

(** The discipline the class is written for: every data pointer is an
    array that is alive and has [size] cells, no two objects point to the
    same array, and every array belongs to an object. *)
Record consistent (mem : memory) : Prop := {
  data_alive : forall p obj l,
    objects mem !! p = Some obj -> data obj = Some l ->
    exists cells, arrays mem !! l = Some cells
                  /\ Z.of_nat (length cells) = size obj;
  data_unshared : forall p q obj obj' l,
    objects mem !! p = Some obj -> objects mem !! q = Some obj' ->
    data obj = Some l -> data obj' = Some l -> p = q;
  arrays_owned : forall l,
    is_Some (arrays mem !! l) ->
    exists p obj, objects mem !! p = Some obj /\ data obj = Some l
}.

(** An array that is alive although no object points to it. *)
Definition leaked (l : loc) (mem : memory) : Prop :=
  is_Some (arrays mem !! l)
  /\ forall p obj, objects mem !! p = Some obj -> data obj <> Some l.

(** Memory with an object and its array (if it has one) taken out. *)
Definition without (this : oid) (obj : t) (mem : memory) : memory :=
  {| objects := delete this (objects mem);
     arrays := match data obj with
               | Some l => delete l (arrays mem)
               | None => arrays mem
               end |}.

End Class.

Arguments objects {DataType} m.
Arguments arrays {DataType} m.

End AbstractProperty.

(* --------------------------------------------------------------------- *)
(** ** WrapperRule.cpp *)
(* --------------------------------------------------------------------- *)

Module WrapperRule.

(** The two register types the rules are checked on. *)
Inductive Register : Type := BitRegister | ExtensiveBitRegister.

Section Rules.

(** What WrapperRule.cpp takes from elsewhere: the other classes derived
    from FockStateRule, with their [clone()] and [isSatisfied()], and the
    Fock spaces and states over each register type. *)
Variable OtherRule : Type.
Variable FockSpace FockState : Register -> Type.
Variable OtherRule_clone : OtherRule -> OtherRule.
Variable OtherRule_isSatisfied :
  forall reg : Register, OtherRule -> FockSpace reg -> FockState reg -> bool.

(** A [FockStateRule*] points to a rule of another class or to a
    WrapperRule; a WrapperRule has the one member [fockStateRule].  Rules
    are taken by value here: which rule an object holds is modelled, where
    it is allocated and when it is deleted is not. *)
Inductive FockStateRule : Type :=
| IsOtherRule (rule : OtherRule)
| IsWrapperRule (rule : t)
with t : Type :=
| Build_t (fockStateRule : FockStateRule).

Definition fockStateRule (w : t) : FockStateRule :=
  match w with Build_t r => r end.

(** The virtual [clone()], and [WrapperRule::clone()], which is
    [new WrapperRule( *fockStateRule)]: the constructor from a
    [const FockStateRule&], which stores [fockStateRule.clone()]. *)
Fixpoint FockStateRule_clone (r : FockStateRule) : FockStateRule :=
  match r with
  | IsOtherRule rule => IsOtherRule (OtherRule_clone rule)
  | IsWrapperRule rule => IsWrapperRule (clone rule)
  end
with clone (w : t) : t :=
  match w with
  | Build_t r => Build_t (FockStateRule_clone r)
  end.

(** [WrapperRule(const FockStateRule &fockStateRule)] *)
Definition WrapperRule (r : FockStateRule) : t :=
  Build_t (FockStateRule_clone r).

(** [WrapperRule(const WrapperRule &wrapperRule)]: the member becomes
    [(FockStateRule* )wrapperRule.clone()]. *)
Definition copy (wrapperRule : t) : t :=
  Build_t (IsWrapperRule (clone wrapperRule)).

(** [operator=(const WrapperRule &wrapperRule)] *)
Definition assign (this wrapperRule : t) : t :=
  Build_t (IsWrapperRule (clone wrapperRule)).

(** The virtual [isSatisfied()] and the two overloads of
    [WrapperRule::isSatisfied()]. *)
Fixpoint FockStateRule_isSatisfied (reg : Register) (r : FockStateRule)
    (fockSpace : FockSpace reg) (fockState : FockState reg) : bool :=
  match r with
  | IsOtherRule rule => OtherRule_isSatisfied reg rule fockSpace fockState
  | IsWrapperRule rule => isSatisfied reg rule fockSpace fockState
  end
with isSatisfied (reg : Register) (w : t)
    (fockSpace : FockSpace reg) (fockState : FockState reg) : bool :=
  match w with
  | Build_t r => FockStateRule_isSatisfied reg r fockSpace fockState
  end.

(** How many WrapperRule objects a call goes through before it reaches a
    rule of another class. *)
Fixpoint FockStateRule_depth (r : FockStateRule) : nat :=
  match r with
  | IsOtherRule _ => O
  | IsWrapperRule rule => depth rule
  end
with depth (w : t) : nat :=
  match w with
  | Build_t r => S (FockStateRule_depth r)
  end.

End Rules.

End WrapperRule.

(* --------------------------------------------------------------------- *)
(** ** Sample values *)
(* --------------------------------------------------------------------- *)

Definition cplx (re im : float) : complex := {| real := re; imag := im |}.

(** A fixed amplitude [(1.5, 2)] from [[0; 1]] to [[0; 0]], and an entry
    over the same indices whose value comes from a callback. *)
Definition fixed_hop : HoppingAmplitude.t :=
  {| HoppingAmplitude.amplitude := cplx 1.5 2;
     HoppingAmplitude.amplitudeCallback := None;
     HoppingAmplitude.fromIndex := [0; 1];
     HoppingAmplitude.toIndex := [0; 0] |}.

Definition callback_hop : HoppingAmplitude.t :=
  {| HoppingAmplitude.amplitude := czero;
     HoppingAmplitude.amplitudeCallback := Some (fun _ _ => cplx 1 0);
     HoppingAmplitude.fromIndex := [0; 1];
     HoppingAmplitude.toIndex := [0; 0] |}.

(** An entry from [[0; 1]] to [[0; 0]] whose callback answers [(1, 2)]
    for that pair of indices and [(3, 4)] for the pair the other way
    round. *)
Definition phase_hop : HoppingAmplitude.t :=
  {| HoppingAmplitude.amplitude := czero;
     HoppingAmplitude.amplitudeCallback :=
       Some (fun to from =>
               match to, from with
               | [0; 0], [0; 1] => cplx 1 2
               | [0; 1], [0; 0] => cplx 3 4
               | _, _ => czero
               end);
     HoppingAmplitude.fromIndex := [0; 1];
     HoppingAmplitude.toIndex := [0; 0] |}.

(** A printer that tells zero from the rest, to run [toString] on. *)
Definition sample_to_string (x : float) : string :=
  if (x =? 0)%float then "0.000000"%string else "x"%string.

Definition sample_Index_toString (ix : Index) : string :=
  match ix with
  | [0; 0] => "{0, 0}"%string
  | [0; 1] => "{0, 1}"%string
  | _ => "{}"%string
  end.

(** Models over the one-component indices [[0]], [[1]] (and [[2]]). *)
Definition model2 : DiagonalizationSolver.Model :=
  {| DiagonalizationSolver.getBasisSize := 2;
     DiagonalizationSolver.getBasisIndex := fun ix =>
       match ix with
       | [0] => Returns 0
       | [1] => Returns 1
       | _ => Fails
       end |}.

Definition model3 : DiagonalizationSolver.Model :=
  {| DiagonalizationSolver.getBasisSize := 3;
     DiagonalizationSolver.getBasisIndex := fun ix =>
       match ix with
       | [0] => Returns 0
       | [1] => Returns 1
       | [2] => Returns 2
       | _ => Fails
       end |}.

(** A driver with nothing set, and one with a model but no solve yet. *)
Definition fresh_driver : DiagonalizationSolver.t :=
  {| DiagonalizationSolver.model := None;
     DiagonalizationSolver.hamiltonian := None;
     DiagonalizationSolver.eigenValues := None;
     DiagonalizationSolver.eigenVectors := None;
     DiagonalizationSolver.maxIterations := 50;
     DiagonalizationSolver.scCallback := None |}.

Definition unsolved_driver : DiagonalizationSolver.t :=
  DiagonalizationSolver.setModel fresh_driver model2.

(** A driver holding the solution of the two-site problem
    [[[0, 1], [1, 0]]]: eigenvalues -1 and 1. *)
Definition solved_driver : DiagonalizationSolver.t :=
  {| DiagonalizationSolver.model := Some model2;
     DiagonalizationSolver.hamiltonian :=
       Some [czero; cplx 1 0; cplx 1 0; czero];
     DiagonalizationSolver.eigenValues := Some [(-1)%float; 1%float];
     DiagonalizationSolver.eigenVectors :=
       Some [cplx 0.5 0; cplx (-0.5) 0; cplx 0.5 0; cplx 0.25 0];
     DiagonalizationSolver.maxIterations := 50;
     DiagonalizationSolver.scCallback := None |}.

(** A client for [run]: no state of its own, a callback (at every
    address) that never reports convergence, a constant assembly and an
    eigensolver stub. *)
Definition never_converged (_ : DiagonalizationSolver.fnptr)
    (_ : DiagonalizationSolver.t) (env : unit) : bool * unit :=
  (false, env).

Definition sample_assemble (_ : DiagonalizationSolver.Model) (_ : unit)
    : list complex :=
  [czero; cplx 1 0; cplx 1 0; czero].

Definition sample_eigensolver (_ : Z) (_ : list complex)
    : list float * list complex :=
  ([(-1)%float; 1%float],
   [cplx 0.5 0; cplx (-0.5) 0; cplx 0.5 0; cplx 0.25 0]).

Definition looping_driver : DiagonalizationSolver.t :=
  DiagonalizationSolver.setMaxIterations
    (DiagonalizationSolver.setSCCallback unsolved_driver (Some 0%nat)) 3.

(** A memory for AbstractProperty<nat>: object 1 owns the array
    [[10; 20]], object 2 has no array, object 3 owns the array [[7]].
    The allocator takes the first address that is free, and new cells
    hold 0. *)
Definition sample_allocate (X : gset AbstractProperty.loc) : AbstractProperty.loc :=
  fresh X.

Definition sample_junk (_ : nat) : nat := 0%nat.

Definition sample_memory : AbstractProperty.memory nat :=
  {| AbstractProperty.objects :=
       <[3%positive := {| AbstractProperty.size := 1;
                          AbstractProperty.data := Some 2%positive |}]>
         (<[2%positive := {| AbstractProperty.size := 0;
                             AbstractProperty.data := None |}]>
            (<[1%positive := {| AbstractProperty.size := 2;
                                AbstractProperty.data := Some 1%positive |}]> ∅));
     AbstractProperty.arrays :=
       <[2%positive := [7%nat]]> (<[1%positive := [10%nat; 20%nat]]> ∅) |}.

(** Rules for WrapperRule: the other rules are the two constant rules,
    cloned as they are; the sample wraps a wrapper of the rule [true]. *)
Definition sample_isSatisfied (_ : WrapperRule.Register) (rule : bool)
    (_ _ : unit) : bool :=
  rule.

Definition sample_wrapper : WrapperRule.t bool :=
  WrapperRule.Build_t bool
    (WrapperRule.IsWrapperRule bool
       (WrapperRule.Build_t bool (WrapperRule.IsOtherRule bool true))).

(* ===================================================================== *)
(** * Part II: properties *)
(* ===================================================================== *)

(** ** Outcomes and [int] arithmetic *)

Lemma int_mul_in_range (a b : Z) :
  INT_MIN <= a * b <= INT_MAX -> int_mul a b = Returns (a * b).
Proof.
  intros [Hlo Hhi]. unfold int_mul, in_int.
  apply Z.leb_le in Hlo. apply Z.leb_le in Hhi.
  rewrite Hlo, Hhi. reflexivity.
Qed.

Lemma int_add_in_range (a b : Z) :
  INT_MIN <= a + b <= INT_MAX -> int_add a b = Returns (a + b).
Proof.
  intros [Hlo Hhi]. unfold int_add, in_int.
  apply Z.leb_le in Hlo. apply Z.leb_le in Hhi.
  rewrite Hlo, Hhi. reflexivity.
Qed.

Lemma subscript_inside {A : Type} (buf : list A) (i : Z) :
  0 <= i < Z.of_nat (length buf) ->
  exists v, buf !! Z.to_nat i = Some v /\ subscript buf i = Returns v.
Proof.
  intros [Hlo Hhi].
  destruct (lookup_lt_is_Some_2 buf (Z.to_nat i)) as [v Hv]; [lia|].
  exists v. split; [exact Hv|].
  unfold subscript. apply Z.leb_le in Hlo. rewrite Hlo, Hv. reflexivity.
Qed.

(** ** HoppingAmplitude *)

Module HoppingAmplitudeFacts.
Import HoppingAmplitude.

(** C4. Every HoppingAmplitude has exactly one active value source:
    either no callback is set, [getAmplitude] is the stored fixed value
    and [getIsCallbackDependent] is false; or a callback is set,
    [getAmplitude] is that callback applied to [(toIndex, fromIndex)] and
    [getIsCallbackDependent] is true.  [getIsCallbackDependent] is true
    if and only if a callback is set. *)
Theorem getAmplitude_one_value_source (h : t) :
  ((amplitudeCallback h = None
    /\ getAmplitude h = amplitude h
    /\ getIsCallbackDependent h = false)
   \/
   (exists callback,
      amplitudeCallback h = Some callback
      /\ getAmplitude h = callback (toIndex h) (fromIndex h)
      /\ getIsCallbackDependent h = true))
  /\ (getIsCallbackDependent h = true <-> is_Some (amplitudeCallback h)).
Proof.
  unfold getAmplitude, getIsCallbackDependent.
  destruct (amplitudeCallback h) as [callback|] eqn:Hcb.
  - split.
    + right. exists callback. repeat split.
    + split; intros _; [exists callback|]; reflexivity.
  - split.
    + left. repeat split.
    + split; [discriminate|]. intros [callback Hsome]. discriminate.
Qed.

Lemma getAmplitude_fixed (a : complex) (from to : Index) :
  getAmplitude {| amplitude := a; amplitudeCallback := None;
                  fromIndex := from; toIndex := to |} = a.
Proof. reflexivity. Qed.

Lemma getAmplitude_callback (a : complex) (callback : Index -> Index -> complex)
    (from to : Index) :
  getAmplitude {| amplitude := a; amplitudeCallback := Some callback;
                  fromIndex := from; toIndex := to |} = callback to from.
Proof. reflexivity. Qed.

(** Conjugating twice gives the value back, so the Hermitian conjugate of
    the Hermitian conjugate is an entry over the same indices with the
    same value. *)
Lemma float_opp_involutive (x : float) : (- - x)%float = x.
Proof.
  apply Prim2SF_inj. rewrite !opp_spec.
  destruct (Prim2SF x) as [sign|sign| |sign mantissa exponent]; simpl;
    try reflexivity; destruct sign; reflexivity.
Qed.

Lemma conj_involutive (z : complex) : conj (conj z) = z.
Proof.
  destruct z as [re im]. unfold conj. simpl.
  rewrite float_opp_involutive. reflexivity.
Qed.

(** Whichever source is active, the value of the mirrored entry is the
    conjugate of the entry's value. *)
Lemma getHermitianConjugate_value (h : t) :
  getAmplitude (getHermitianConjugate h) = conj (getAmplitude h).
Proof.
  unfold getAmplitude, getHermitianConjugate. simpl.
  destruct (amplitudeCallback h) as [callback|]; reflexivity.
Qed.

Lemma getHermitianConjugate_source (h : t) :
  getIsCallbackDependent (getHermitianConjugate h) = getIsCallbackDependent h.
Proof.
  unfold getIsCallbackDependent, getHermitianConjugate. simpl.
  destruct (amplitudeCallback h) as [callback|]; reflexivity.
Qed.

Lemma getHermitianConjugate_involutive (h : t) :
  toIndex (getHermitianConjugate (getHermitianConjugate h)) = toIndex h
  /\ fromIndex (getHermitianConjugate (getHermitianConjugate h)) = fromIndex h
  /\ amplitude (getHermitianConjugate (getHermitianConjugate h)) = amplitude h
  /\ getAmplitude (getHermitianConjugate (getHermitianConjugate h))
     = getAmplitude h.
Proof.
  split; [reflexivity|]. split; [reflexivity|]. split.
  - simpl. apply conj_involutive.
  - rewrite !getHermitianConjugate_value. apply conj_involutive.
Qed.


(** The second spec example: [(to=[0,0], from=[0,1], v) + HC] holds the
    entry itself and the entry from [[0,0]] to [[0,1]] with [conj v]. *)
Example operator_plus_HC_sample :
  operator_plus fixed_hop HC =
    (fixed_hop,
     {| amplitude := cplx 1.5 (-2);
        amplitudeCallback := None;
        fromIndex := [0; 0];
        toIndex := [0; 1] |}).
Proof. reflexivity. Qed.

(** A callback-dependent entry: the callback answers [(1, 2)] for
    [(to=[0,0], from=[0,1])]; the mirrored entry goes from [[0,0]] to
    [[0,1]], is callback-dependent too, and its value is [(1, -2)]. *)
Example operator_plus_HC_callback_sample :
  getAmplitude phase_hop = cplx 1 2
  /\ toIndex (snd (operator_plus phase_hop HC)) = [0; 1]
  /\ fromIndex (snd (operator_plus phase_hop HC)) = [0; 0]
  /\ getIsCallbackDependent (snd (operator_plus phase_hop HC)) = true
  /\ getAmplitude (snd (operator_plus phase_hop HC)) = cplx 1 (-2).
Proof. repeat split. Qed.

Lemma append_assoc (a b c : string) :
  ((a ++ b) ++ c)%string = (a ++ (b ++ c))%string.
Proof.
  induction a as [|ch a IH]; simpl; [reflexivity|].
  rewrite IH. reflexivity.
Qed.

Section ToStringFacts.

Variable to_string : float -> string.
Variable Index_toString : Index -> string.

(** C9. [toString()] prints the stored fixed amplitude field (real and
    imaginary part) followed by [toIndex] and [fromIndex]; the callback
    member plays no part, so for a callback-dependent entry the printed
    value is the fixed field and not the value [callback(toIndex,
    fromIndex)] that [getAmplitude()] returns. *)
Theorem toString_prints_fixed_field (a : complex)
    (callback : option (Index -> Index -> complex)) (from to : Index) :
  let h := {| amplitude := a; amplitudeCallback := callback;
              fromIndex := from; toIndex := to |} in
  toString to_string Index_toString h =
    ("(" ++ to_string (real a) ++ ", " ++ to_string (imag a) ++ ")"
     ++ ", " ++ Index_toString to ++ ", " ++ Index_toString from)%string
  /\ toString to_string Index_toString h =
     toString to_string Index_toString
       {| amplitude := a; amplitudeCallback := None;
          fromIndex := from; toIndex := to |}
  /\ (forall f, callback = Some f -> getAmplitude h = f to from).
Proof.
  intros h. split; [|split].
  - unfold toString, h. cbn [amplitude toIndex fromIndex].
    change (EmptyString ++ ?x)%string with x.
    rewrite !append_assoc. reflexivity.
  - reflexivity.
  - intros f ->. reflexivity.
Qed.

End ToStringFacts.

(** A callback-dependent entry whose fixed field is zero and whose
    callback answers 1: the string shows the zero, [getAmplitude] the 1. *)
Example toString_callback_sample :
  toString sample_to_string sample_Index_toString callback_hop
    = "(0.000000, 0.000000), {0, 0}, {0, 1}"%string
  /\ getAmplitude callback_hop = cplx 1 0
  /\ sample_to_string (real (getAmplitude callback_hop)) = "x"%string.
Proof. repeat split. Qed.

End HoppingAmplitudeFacts.

(** ** DOS *)

Module DOSFacts.
Import DOS.

(** A fresh array has the requested number of cells. *)
Lemma new_double_array_length (junk : nat -> float) (n : Z) (cells : list float) :
  new_double_array junk n = Returns cells -> Z.of_nat (length cells) = n.
Proof.
  unfold new_double_array. destruct (0 <=? n) eqn:Hn; [|discriminate].
  intros [= <-]. apply Z.leb_le in Hn.
  rewrite length_map, length_seq. lia.
Qed.

(** The loop entered at counter [n] keeps the cells below [n] and writes
    zero into every cell from [n] up to the end of the array. *)
Lemma zero_loop_from (k : nat) :
  forall (n resolution : Z) (cells : list float),
    Z.to_nat (resolution - n) = k ->
    0 <= n ->
    Z.of_nat (length cells) = resolution ->
    zero_loop n resolution cells
      = take (Z.to_nat n) cells ++ replicate k 0%float.
Proof.
  induction k as [|k IH]; intros n resolution cells Hk Hn Hlen;
    rewrite zero_loop_equation_1; unfold zero_loop_unfold_clause_1;
    destruct (Z_lt_dec n resolution) as [Hlt|Hge]; try lia.
  - rewrite take_ge by lia. rewrite app_nil_r. reflexivity.
  - rewrite (IH (n + 1) resolution) by (rewrite ?length_insert; lia).
    replace (Z.to_nat (n + 1)) with (S (Z.to_nat n)) by lia.
    rewrite (take_S_r _ _ 0%float)
      by (apply list_lookup_insert_eq; lia).
    rewrite take_insert_ge by lia.
    rewrite <- app_assoc. reflexivity.
Qed.

(** C10. For every [lowerBound], [upperBound] and positive
    [resolution], the DOS constructor returns an object whose data buffer
    has exactly [resolution] entries, every one of them 0 (whatever the
    allocator left in the cells). *)
Theorem DOS_constructor_zero_data (junk : nat -> float)
    (lowerBound upperBound : float) (resolution : Z) :
  0 < resolution ->
  exists d,
    DOS junk lowerBound upperBound resolution = Returns d
    /\ DOS.lowerBound d = lowerBound
    /\ DOS.upperBound d = upperBound
    /\ DOS.resolution d = resolution
    /\ Z.of_nat (length (data d)) = resolution
    /\ (forall n, 0 <= n < resolution -> data d !! Z.to_nat n = Some 0%float)
    /\ data d = replicate (Z.to_nat resolution) 0%float.
Proof.
  intros Hpos. unfold DOS.
  destruct (new_double_array junk resolution) as [cells|] eqn:Hnew.
  2:{ unfold new_double_array in Hnew.
      destruct (0 <=? resolution) eqn:Hres; [discriminate|].
      apply Z.leb_gt in Hres. lia. }
  apply new_double_array_length in Hnew. simpl.
  assert (Hdata : zero_loop 0 resolution cells
                  = replicate (Z.to_nat resolution) 0%float).
  { rewrite (zero_loop_from (Z.to_nat resolution)) by (f_equal; lia).
    reflexivity. }
  eexists. split; [reflexivity|]. simpl. rewrite Hdata.
  repeat split.
  - rewrite length_replicate. lia.
  - intros n Hn. apply lookup_replicate_2. lia.
Qed.

Lemma DOS_constructor_zero_data_witness :
  0 < 3 /\
  DOS (fun _ => 7%float) (-1)%float 1%float 3
    = Returns {| lowerBound := (-1)%float; upperBound := 1%float;
                 resolution := 3;
                 data := [0%float; 0%float; 0%float] |}.
Proof.
  split; [lia|].
  destruct (DOS_constructor_zero_data (fun _ => 7%float) (-1)%float 1%float 3)
    as [d (Hd & Hlb & Hub & Hres & _ & _ & Hdata)]; [lia|].
  rewrite Hd. destruct d as [lb ub res cells]. simpl in *.
  rewrite Hlb, Hub, Hres, Hdata. reflexivity.
Defined.

(** A negative resolution makes the allocation throw. *)
Example DOS_negative_resolution :
  DOS (fun _ => 7%float) (-1)%float 1%float (-3) = Fails.
Proof. reflexivity. Qed.

End DOSFacts.

(** ** DiagonalizationSolver: accessors *)

Module DiagonalizationSolverFacts.
Import DiagonalizationSolver.

(** What [isSolved] says, member by member. *)
Lemma isSolved_inv (s : t) :
  isSolved s = true ->
  exists m values vectors,
    model s = Some m
    /\ eigenValues s = Some values
    /\ eigenVectors s = Some vectors
    /\ 0 <= getBasisSize m
    /\ getBasisSize m * getBasisSize m <= INT_MAX
    /\ Z.of_nat (length values) = getBasisSize m
    /\ Z.of_nat (length vectors) = getBasisSize m * getBasisSize m.
Proof.
  unfold isSolved.
  destruct (model s) as [m|]; [|discriminate].
  destruct (eigenValues s) as [values|]; [|discriminate].
  destruct (eigenVectors s) as [vectors|]; [|discriminate].
  rewrite !andb_true_iff, !Z.leb_le, !Z.eqb_eq.
  intros [[[H0 Hmax] Hvalues] Hvectors].
  exists m, values, vectors. repeat split; assumption.
Qed.

(** C1. On a solved driver with basis size [N], for every eigenstate
    number [n] (from 0 to N-1) and every index [ix] that
    [getBasisIndex] resolves to a basis position [b] (from 0 to N-1),
    [getAmplitude(n, ix)] returns the element at offset [N*n + b] of the
    flat eigenvector buffer; when [getBasisIndex] fails on the index, the
    call fails. *)
Theorem getAmplitude_reads_flat_buffer (s : t) (m : Model)
    (vectors : list complex) :
  isSolved s = true ->
  model s = Some m ->
  eigenVectors s = Some vectors ->
  (forall (n : Z) (ix : Index) (b : Z),
      0 <= n < getBasisSize m ->
      getBasisIndex m ix = Returns b ->
      0 <= b < getBasisSize m ->
      exists v,
        vectors !! Z.to_nat (getBasisSize m * n + b) = Some v
        /\ getAmplitude s n ix = Returns v)
  /\ (forall (n : Z) (ix : Index),
        getBasisIndex m ix = Fails -> getAmplitude s n ix = Fails).
Proof.
  intros Hsolved Hmodel Hvectors.
  destruct (isSolved_inv s Hsolved)
    as (m' & values & vectors' & Hm & _ & Hv & HN & Hmax & _ & Hlen).
  rewrite Hmodel in Hm. injection Hm as <-.
  rewrite Hvectors in Hv. injection Hv as <-.
  unfold INT_MAX in Hmax.
  split.
  - intros n ix b Hn Hix Hb.
    destruct (subscript_inside vectors (getBasisSize m * n + b))
      as [v [Hlook Hsub]]; [nia|].
    exists v. split; [exact Hlook|].
    unfold getAmplitude. rewrite Hmodel. simpl.
    rewrite int_mul_in_range by (unfold INT_MIN, INT_MAX; nia). simpl.
    rewrite Hix. simpl.
    rewrite int_add_in_range by (unfold INT_MIN, INT_MAX; nia). simpl.
    rewrite Hvectors. simpl. exact Hsub.
  - intros n ix Hix. unfold getAmplitude. rewrite Hmodel. simpl.
    destruct (int_mul (getBasisSize m) n); simpl; [|reflexivity].
    rewrite Hix. reflexivity.
Qed.

Lemma getAmplitude_reads_flat_buffer_witness :
  isSolved solved_driver = true
  /\ getAmplitude solved_driver 1 [1] = Returns (cplx 0.25 0)
  /\ getAmplitude solved_driver 1 [5] = Fails.
Proof.
  split; [reflexivity|].
  destruct (getAmplitude_reads_flat_buffer solved_driver model2
              [cplx 0.5 0; cplx (-0.5) 0; cplx 0.5 0; cplx 0.25 0]
              eq_refl eq_refl eq_refl) as [Hin Hout].
  split.
  - destruct (Hin 1 [1] 1) as [v [Hlook Hget]];
      [simpl; lia | reflexivity | simpl; lia |].
    simpl in Hlook. injection Hlook as <-. exact Hget.
  - apply Hout. reflexivity.
Defined.

(** C2, as the code has it.  [getEigenValues()] and [getEigenVectors()]
    make no check of the driver's state: in every state they return the
    stored buffer pointer as it is and never fail; in particular, when
    the member is the null pointer, the null pointer is what they return.
    [getAmplitude(state, index)] goes through the model and the
    eigenvector buffer and fails when either pointer is null.  On a
    driver that holds a model of basis size [N] and eigen buffers of [N]
    and [N*N] entries, the two buffer accessors return those buffers. *)
Theorem accessors_return_stored_pointers (s : t) :
  getEigenValues s = Returns (eigenValues s)
  /\ getEigenVectors s = Returns (eigenVectors s)
  /\ (forall (n : Z) (ix : Index),
        model s = None \/ eigenVectors s = None ->
        getAmplitude s n ix = Fails)
  /\ (eigenValues s = None -> getEigenValues s = Returns None)
  /\ (eigenVectors s = None -> getEigenVectors s = Returns None)
  /\ (isSolved s = true ->
      exists m values vectors,
        model s = Some m
        /\ getEigenValues s = Returns (Some values)
        /\ Z.of_nat (length values) = getBasisSize m
        /\ getEigenVectors s = Returns (Some vectors)
        /\ Z.of_nat (length vectors) = getBasisSize m * getBasisSize m).
Proof.
  split; [reflexivity|]. split; [reflexivity|]. split; [|split; [|split]].
  - intros n ix [Hmodel|Hvectors]; unfold getAmplitude.
    + rewrite Hmodel. reflexivity.
    + rewrite Hvectors.
      destruct (model s) as [m|]; simpl; [|reflexivity].
      destruct (int_mul (getBasisSize m) n); simpl; [|reflexivity].
      destruct (getBasisIndex m ix) as [b|]; simpl; [|reflexivity].
      destruct (int_add _ b); reflexivity.
  - intros Hnull. unfold getEigenValues. rewrite Hnull. reflexivity.
  - intros Hnull. unfold getEigenVectors. rewrite Hnull. reflexivity.
  - intros Hsolved.
    destruct (isSolved_inv s Hsolved)
      as (m & values & vectors & Hm & Hvalues & Hvectors & _ & _ & Hlen & Hlen').
    exists m, values, vectors. unfold getEigenValues, getEigenVectors.
    rewrite Hvalues, Hvectors. repeat split; assumption.
Qed.

(** C2, as stated, fails: on a driver that has a model but was never
    run, the two buffer accessors return (the null pointer) instead of
    raising an error. *)
Lemma accessors_before_solve_return_null :
  isSolved unsolved_driver = false
  /\ getEigenValues unsolved_driver = Returns None
  /\ getEigenVectors unsolved_driver = Returns None.
Proof. repeat split. Qed.

(** C7, as the code has it.  [setModel] stores the new model pointer, so
    the driver is no longer Unconfigured, and touches nothing else: the
    Hamiltonian and eigen buffers, the iteration ceiling and the callback
    are the ones the driver had, whatever the basis size of the new
    model. *)
Theorem setModel_only_sets_model (s : t) (m : Model) :
  getModel (setModel s m) = Some m
  /\ isUnconfigured (setModel s m) = false
  /\ hamiltonian (setModel s m) = hamiltonian s
  /\ eigenValues (setModel s m) = eigenValues s
  /\ eigenVectors (setModel s m) = eigenVectors s
  /\ getEigenValues (setModel s m) = getEigenValues s
  /\ getEigenVectors (setModel s m) = getEigenVectors s
  /\ maxIterations (setModel s m) = maxIterations s
  /\ scCallback (setModel s m) = scCallback s.
Proof. repeat split. Qed.

(** C7, as stated, fails: a driver solved for a model of basis size 2
    and given a model of basis size 3 still serves the eigenvalues and
    eigenvectors of the old model, and [getAmplitude] reads the old
    buffer with the new basis size. *)
Lemma setModel_serves_stale_buffers :
  isSolved solved_driver = true
  /\ getBasisSize model2 = 2
  /\ getBasisSize model3 = 3
  /\ getEigenValues (setModel solved_driver model3)
     = Returns (Some [(-1)%float; 1%float])
  /\ getEigenVectors (setModel solved_driver model3)
     = Returns (Some [cplx 0.5 0; cplx (-0.5) 0; cplx 0.5 0; cplx 0.25 0])
  /\ hamiltonian (setModel solved_driver model3)
     = Some [czero; cplx 1 0; cplx 1 0; czero]
  /\ getAmplitude (setModel solved_driver model3) 1 [0] = Returns (cplx 0.25 0).
Proof. repeat split. Qed.

(** ** DiagonalizationSolver: [run()] *)

Section RunFacts.

Variable Env : Type.
Variable code : fnptr -> t -> Env -> bool * Env.
Variable assemble : Model -> Env -> list complex.
Variable eigensolver : Z -> list complex -> list float * list complex.

Local Abbreviation update := (update Env assemble).
Local Abbreviation solve := (solve eigensolver).
Local Abbreviation scLoop := (scLoop Env code assemble eigensolver).
Local Abbreviation run := (run Env code assemble eigensolver).
Local Abbreviation solves_of := (solves_of Env).

Lemma init_ready (m : Model) (s : t) :
  model s = Some m ->
  exists s0, init s = Returns s0 /\ ready m (maxIterations s) (scCallback s) s0.
Proof.
  intros Hm. unfold DiagonalizationSolver.init. rewrite Hm. simpl.
  eexists. split; [reflexivity|].
  unfold ready. simpl. repeat split; eauto.
Qed.

Lemma update_ready (m : Model) (ceiling : Z) (callback : option fnptr)
    (s : t) (env : Env) :
  ready m ceiling callback s ->
  exists s', update s env = Returns s' /\ ready m ceiling callback s'.
Proof.
  intros (Hm & [H HH] & Hceil & Hcb).
  unfold DiagonalizationSolver.update. rewrite Hm, HH. simpl.
  eexists. split; [reflexivity|].
  unfold ready. simpl. repeat split; eauto.
Qed.

Lemma solve_ready (m : Model) (ceiling : Z) (callback : option fnptr) (s : t) :
  ready m ceiling callback s ->
  exists s', solve s = Returns s' /\ ready m ceiling callback s'.
Proof.
  intros (Hm & [H HH] & Hceil & Hcb).
  unfold DiagonalizationSolver.solve. rewrite Hm, HH. simpl.
  destruct (eigensolver (getBasisSize m) H) as [values vectors].
  eexists. split; [reflexivity|].
  unfold ready. simpl. repeat split; eauto.
Qed.

(** With a callback that never reports convergence the loop uses up the
    whole ceiling, one solve per iteration. *)
Lemma scLoop_never_converged (m : Model) (ceiling : Z) (cb : option fnptr)
    (callback : fnptr) :
  (forall s e, fst (code callback s e) = false) ->
  forall (iterations : nat) (s : t) (env : Env) (solves : nat),
    ready m ceiling cb s ->
    solves_of (scLoop iterations callback s env solves)
      = Returns (solves + iterations)%nat.
Proof.
  intros Hnever. induction iterations as [|k IH]; intros s env solves Hready.
  - simpl. f_equal. lia.
  - simpl.
    destruct (solve_ready m ceiling cb s Hready) as [s1 [Hsolve Hready1]].
    rewrite Hsolve. simpl.
    specialize (Hnever s1 env).
    destruct (code callback s1 env) as [done env1]. simpl in Hnever. subst done.
    destruct (update_ready m ceiling cb s1 env1 Hready1) as [s2 [Hupdate Hready2]].
    rewrite Hupdate. simpl.
    rewrite (IH s2 env1 (S solves) Hready2). f_equal. lia.
Qed.

(** Whatever the callback answers, the loop returns and stays within the
    ceiling. *)
Lemma scLoop_within_ceiling (m : Model) (ceiling : Z) (cb : option fnptr)
    (callback : fnptr) :
  forall (iterations : nat) (s : t) (env : Env) (solves : nat),
    ready m ceiling cb s ->
    exists n, solves_of (scLoop iterations callback s env solves) = Returns n
              /\ (solves <= n <= solves + iterations)%nat.
Proof.
  induction iterations as [|k IH]; intros s env solves Hready.
  - simpl. exists solves. split; [reflexivity|lia].
  - simpl.
    destruct (solve_ready m ceiling cb s Hready) as [s1 [Hsolve Hready1]].
    rewrite Hsolve. simpl.
    destruct (code callback s1 env) as [[|] env1].
    + simpl. exists (S solves). split; [reflexivity|lia].
    + destruct (update_ready m ceiling cb s1 env1 Hready1)
        as [s2 [Hupdate Hready2]].
      rewrite Hupdate. simpl.
      destruct (IH s2 env1 (S solves) Hready2) as [n [Hn Hbound]].
      exists n. split; [exact Hn|lia].
Qed.

(** C3. For every configured driver (a model is set, the iteration
    ceiling is not negative): [run()] with a self-consistency callback
    that always answers "not converged" makes exactly [maxIterations]
    solves, and [run()] with no callback makes exactly one solve. *)
Theorem run_solve_count (s : t) (env : Env) :
  isUnconfigured s = false ->
  0 <= maxIterations s ->
  (forall callback,
      scCallback s = Some callback ->
      (forall s' e, fst (code callback s' e) = false) ->
      exists n, solves_of (run s env) = Returns n
                /\ Z.of_nat n = maxIterations s)
  /\ (scCallback s = None -> solves_of (run s env) = Returns 1%nat).
Proof.
  intros Hconf Hceil. unfold isUnconfigured in Hconf.
  destruct (model s) as [m|] eqn:Hm; [clear Hconf|discriminate].
  destruct (init_ready m s Hm) as [s0 [Hinit Hready0]].
  destruct (update_ready m _ _ s0 env Hready0) as [s1 [Hupdate Hready1]].
  assert (Hcb1 : scCallback s1 = scCallback s) by apply Hready1.
  assert (Hmax1 : maxIterations s1 = maxIterations s) by apply Hready1.
  split.
  - intros callback Hcb Hnever.
    exists (Z.to_nat (maxIterations s)). split; [|lia].
    unfold DiagonalizationSolver.run. rewrite Hinit. simpl.
    rewrite Hupdate. simpl. rewrite Hcb1, Hcb, Hmax1.
    rewrite (scLoop_never_converged m _ _ callback Hnever _ s1 env 0%nat Hready1).
    reflexivity.
  - intros Hcb.
    unfold DiagonalizationSolver.run. rewrite Hinit. simpl.
    rewrite Hupdate. simpl. rewrite Hcb1, Hcb.
    destruct (solve_ready m _ _ s1 Hready1) as [s2 [Hsolve _]].
    rewrite Hsolve. reflexivity.
Qed.

End RunFacts.

Lemma run_solve_count_witness :
  isUnconfigured looping_driver = false
  /\ 0 <= maxIterations looping_driver
  /\ solves_of unit
       (run unit never_converged sample_assemble sample_eigensolver
            looping_driver tt)
     = Returns 3%nat
  /\ solves_of unit
       (run unit never_converged sample_assemble sample_eigensolver
            unsolved_driver tt)
     = Returns 1%nat.
Proof.
  split; [reflexivity|]. split; [simpl; lia|]. split.
  - destruct (run_solve_count unit never_converged sample_assemble
                sample_eigensolver looping_driver tt eq_refl)
      as [Hloop _]; [simpl; lia|].
    destruct (Hloop 0%nat eq_refl (fun _ _ => eq_refl)) as [n [Hn Hmax]].
    simpl in Hmax. replace n with 3%nat in Hn by lia. exact Hn.
  - destruct (run_solve_count unit never_converged sample_assemble
                sample_eigensolver unsolved_driver tt eq_refl)
      as [_ Honce]; [simpl; lia|].
    apply Honce. reflexivity.
Defined.

(** The same two runs, evaluated. *)
Example run_samples :
  solves_of unit
    (run unit never_converged sample_assemble sample_eigensolver
         looping_driver tt) = Returns 3%nat
  /\ solves_of unit
       (run unit never_converged sample_assemble sample_eigensolver
            unsolved_driver tt) = Returns 1%nat.
Proof. split; reflexivity. Qed.

End DiagonalizationSolverFacts.

(** ** Counted loops *)

Lemma for_loop_step {S : Type} (n bound : Z) (body : Z -> S -> outcome S) (s : S) :
  for_loop n bound body s
  = if decide (n < bound) then
      match body n s with
      | Fails => Fails
      | Returns s' =>
          if decide (n < INT_MAX) then for_loop (n + 1) bound body s' else Fails
      end
    else Returns s.
Proof.
  rewrite for_loop_equation_1. unfold for_loop_unfold_clause_1.
  destruct (Z_lt_dec n bound); destruct (decide (n < bound)); try lia; [|reflexivity].
  destruct (body n s) as [s'|]; [|reflexivity]. simpl.
  destruct (Z_lt_dec n INT_MAX); destruct (decide (n < INT_MAX)); try lia; reflexivity.
Qed.

(** ** AbstractProperty *)

Module AbstractPropertyFacts.
Import AbstractProperty.

Section ClassFacts.

Variable DataType : Type.
Variable allocate : gset loc -> loc.
Variable junk : nat -> DataType.

(** The allocator never hands out the address of a live array. *)
Hypothesis allocate_fresh : forall X : gset loc, allocate X ∉ X.

Local Abbreviation t := (AbstractProperty.t).
Local Abbreviation memory := (memory DataType).
Local Abbreviation consistent := (consistent DataType).
Local Abbreviation leaked := (leaked DataType).
Local Abbreviation get_size := (get_size DataType).
Local Abbreviation get_data := (get_data DataType).
Local Abbreviation getSize := (getSize DataType).
Local Abbreviation getData := (getData DataType).
Local Abbreviation setSize := (setSize DataType allocate junk).
Local Abbreviation construct := (construct DataType).
Local Abbreviation copy_construct := (copy_construct DataType allocate junk).
Local Abbreviation move_construct := (move_construct DataType).
Local Abbreviation copy_assign := (copy_assign DataType allocate junk).
Local Abbreviation move_assign := (move_assign DataType).
Local Abbreviation destructor := (destructor DataType).
Local Abbreviation copy_cell := (copy_cell DataType).
Local Abbreviation without := (without DataType).

Lemma allocate_not_alive (A : gmap loc (list DataType)) :
  A !! allocate (dom A) = None.
Proof. apply not_elem_of_dom. apply allocate_fresh. Qed.

Lemma new_cells_length (n : Z) :
  0 <= n -> Z.of_nat (length (map junk (seq 0 (Z.to_nat n)))) = n.
Proof. intros Hn. rewrite length_map, length_seq. lia. Qed.

(** What [setSize] leaves in memory. *)
Lemma setSize_memory (this : oid) (n : Z) (mem : memory) (obj : t) :
  objects mem !! this = Some obj ->
  (forall l, data obj = Some l -> is_Some (arrays mem !! l)) ->
  let kept := match data obj with
              | Some l => delete l (arrays mem)
              | None => arrays mem
              end in
  setSize this n mem
  = Returns {| objects := <[this := {| size := n; data := Some (allocate (dom kept)) |}]>
                            (objects mem);
               arrays := <[allocate (dom kept) := map junk (seq 0 (Z.to_nat n))]> kept |}.
Proof.
  intros Hobj Halive kept.
  unfold AbstractProperty.setSize, AbstractProperty.set_size,
    AbstractProperty.get_data, AbstractProperty.set_data,
    AbstractProperty.delete_array, AbstractProperty.new_array.
  rewrite Hobj. simpl. rewrite lookup_insert_eq. simpl.
  subst kept. destruct (data obj) as [l|] eqn:Hdata.
  - destruct (Halive l eq_refl) as [cells Hcells]. rewrite Hcells. simpl.
    rewrite lookup_insert_eq. simpl. rewrite insert_insert_eq. reflexivity.
  - simpl. rewrite lookup_insert_eq. simpl. rewrite insert_insert_eq. reflexivity.
Qed.

(** *** How the discipline is kept *)

Lemma consistent_without (this : oid) (obj : t) (mem : memory) :
  consistent mem ->
  objects mem !! this = Some obj ->
  consistent (without this obj mem).
Proof.
  intros [Halive Hunshared Howned] Hobj. unfold without. split; simpl.
  - intros p o l Hp Hl.
    apply lookup_delete_Some in Hp as [Hne Hp].
    destruct (Halive p o l Hp Hl) as [cells [Hcells Hlen]].
    exists cells. split; [|exact Hlen].
    destruct (data obj) as [l0|] eqn:Hdata; [|exact Hcells].
    rewrite lookup_delete_ne; [exact Hcells|].
    intros ->. apply Hne. symmetry. exact (Hunshared p this o obj l Hp Hobj Hl Hdata).
  - intros p q o o' l Hp Hq. 
    apply lookup_delete_Some in Hp as [_ Hp].
    apply lookup_delete_Some in Hq as [_ Hq].
    exact (Hunshared p q o o' l Hp Hq).
  - intros l Hl.
    assert (Hl' : is_Some (arrays mem !! l) /\ data obj <> Some l).
    { destruct (data obj) as [l0|]; [|split; [exact Hl|discriminate]].
      destruct Hl as [cells Hcells].
      apply lookup_delete_Some in Hcells as [Hne Hcells].
      split; [eexists; exact Hcells|congruence]. }
    destruct Hl' as [Hsome Hne].
    destruct (Howned l Hsome) as (p & o & Hp & Ho).
    exists p, o. split; [|exact Ho].
    rewrite lookup_delete_ne; [exact Hp|]. intros <-. congruence.
Qed.

(** Putting a new object with a new array into memory. *)
Lemma consistent_with_array (this : oid) (sz : Z) (l : loc)
    (cells : list DataType) (mem : memory) :
  consistent mem ->
  objects mem !! this = None ->
  arrays mem !! l = None ->
  Z.of_nat (length cells) = sz ->
  consistent {| objects := <[this := {| size := sz; data := Some l |}]> (objects mem);
                arrays := <[l := cells]> (arrays mem) |}.
Proof.
  intros [Halive Hunshared Howned] Hthis Hl Hlen. split; simpl.
  - intros p o l' Hp Hl'.
    destruct (decide (p = this)) as [->|Hne].
    + rewrite lookup_insert_eq in Hp. injection Hp as <-. simpl in Hl'.
      injection Hl' as <-. exists cells. rewrite lookup_insert_eq. split; [reflexivity|exact Hlen].
    + rewrite lookup_insert_ne in Hp by congruence.
      destruct (Halive p o l' Hp Hl') as [cells' [Hcells' Hlen']].
      exists cells'. split; [|exact Hlen'].
      rewrite lookup_insert_ne; [exact Hcells'|]. intros <-. congruence.
  - intros p q o o' l' Hp Hq Ho Ho'.
    destruct (decide (p = this)) as [->|Hp'], (decide (q = this)) as [->|Hq'];
      [reflexivity| | |].
    + rewrite lookup_insert_eq in Hp. injection Hp as <-. simpl in Ho. injection Ho as <-.
      rewrite lookup_insert_ne in Hq by congruence.
      destruct (Halive q o' l Hq Ho') as [cells' [Hcells' _]]. congruence.
    + rewrite lookup_insert_eq in Hq. injection Hq as <-. simpl in Ho'. injection Ho' as <-.
      rewrite lookup_insert_ne in Hp by congruence.
      destruct (Halive p o l Hp Ho) as [cells' [Hcells' _]]. congruence.
    + rewrite lookup_insert_ne in Hp by congruence.
      rewrite lookup_insert_ne in Hq by congruence.
      exact (Hunshared p q o o' l' Hp Hq Ho Ho').
  - intros l' Hl'.
    destruct (decide (l' = l)) as [->|Hne].
    + exists this, {| size := sz; data := Some l |}.
      rewrite lookup_insert_eq. split; reflexivity.
    + rewrite lookup_insert_ne in Hl' by congruence.
      destruct (Howned l' Hl') as (p & o & Hp & Ho).
      exists p, o. split; [|exact Ho].
      rewrite lookup_insert_ne; [exact Hp|]. intros <-. congruence.
Qed.

(** Putting a new object without an array into memory. *)
Lemma consistent_with_null (this : oid) (sz : Z) (mem : memory) :
  consistent mem ->
  objects mem !! this = None ->
  consistent {| objects := <[this := {| size := sz; data := None |}]> (objects mem);
                arrays := arrays mem |}.
Proof.
  intros [Halive Hunshared Howned] Hthis. split; simpl.
  - intros p o l Hp Hl.
    destruct (decide (p = this)) as [->|Hne].
    + rewrite lookup_insert_eq in Hp. injection Hp as <-. discriminate.
    + rewrite lookup_insert_ne in Hp by congruence. exact (Halive p o l Hp Hl).
  - intros p q o o' l Hp Hq Ho Ho'.
    destruct (decide (p = this)) as [->|Hp'].
    { rewrite lookup_insert_eq in Hp. injection Hp as <-. discriminate. }
    destruct (decide (q = this)) as [->|Hq'].
    { rewrite lookup_insert_eq in Hq. injection Hq as <-. discriminate. }
    rewrite lookup_insert_ne in Hp by congruence.
    rewrite lookup_insert_ne in Hq by congruence.
    exact (Hunshared p q o o' l Hp Hq Ho Ho').
  - intros l Hl. destruct (Howned l Hl) as (p & o & Hp & Ho).
    exists p, o. split; [|exact Ho].
    rewrite lookup_insert_ne; [exact Hp|]. intros <-. congruence.
Qed.

(** *** The copy loop *)

Lemma memory_eta (mem : memory) :
  {| objects := objects mem; arrays := arrays mem |} = mem.
Proof. destruct mem. reflexivity. Qed.

(** One pass of the loop body between two different arrays. *)
Lemma copy_cell_distinct (this rhs : oid) (me r : t) (to from : loc)
    (src dst : list DataType) (n : Z) (mem : memory) :
  objects mem !! this = Some me -> data me = Some to ->
  objects mem !! rhs = Some r -> data r = Some from ->
  arrays mem !! from = Some src -> arrays mem !! to = Some dst ->
  0 <= n -> n < Z.of_nat (length src) -> n < Z.of_nat (length dst) ->
  exists v, src !! Z.to_nat n = Some v
    /\ copy_cell this rhs n mem
        = Returns {| objects := objects mem;
                     arrays := <[to := <[Z.to_nat n := v]> dst]> (arrays mem) |}.
Proof.
  intros Hme Hto Hr Hfrom Hsrc Hdst Hn Hnsrc Hndst.
  destruct (subscript_inside src n) as [v [Hv Hsub]]; [lia|].
  destruct (subscript_inside dst n) as [w [Hw Hsubw]]; [lia|].
  exists v. split; [exact Hv|].
  unfold AbstractProperty.copy_cell, AbstractProperty.get_data,
    AbstractProperty.read, AbstractProperty.write.
  rewrite Hr. simpl. rewrite Hfrom. simpl. rewrite Hsrc. simpl.
  rewrite Hsub. simpl. rewrite Hme. simpl. rewrite Hto. simpl.
  rewrite Hdst. simpl. rewrite Hsubw. reflexivity.
Qed.

(** Entered at counter [n], the loop between two different arrays of
    [bound] cells leaves the cells below [n] of the target as they are
    and makes the others equal to the source's. *)
Lemma copy_loop_distinct (this rhs : oid) (me r : t) (to from : loc)
    (src : list DataType) (bound : Z) (k : nat) :
  data me = Some to -> data r = Some from -> to <> from ->
  Z.of_nat (length src) = bound -> bound <= INT_MAX ->
  forall (n : Z) (dst : list DataType) (mem : memory),
    Z.to_nat (bound - n) = k -> 0 <= n ->
    objects mem !! this = Some me -> objects mem !! rhs = Some r ->
    arrays mem !! from = Some src -> arrays mem !! to = Some dst ->
    Z.of_nat (length dst) = bound ->
    for_loop n bound (copy_cell this rhs) mem
    = Returns {| objects := objects mem;
                 arrays := <[to := take (Z.to_nat n) dst ++ drop (Z.to_nat n) src]>
                             (arrays mem) |}.
Proof.
  intros Hto Hfrom Hne Hlen Hmax.
  induction k as [|k IH]; intros n dst mem Hk Hn Hme Hr Hsrc Hdst Hdlen;
    rewrite for_loop_step; destruct (decide (n < bound)) as [Hlt|Hge]; try lia.
  - rewrite take_ge by lia. rewrite drop_ge by lia. rewrite app_nil_r.
    rewrite insert_id by exact Hdst. rewrite memory_eta. reflexivity.
  - destruct (copy_cell_distinct this rhs me r to from src dst n mem)
      as [v [Hv Hcell]]; try assumption; try lia.
    rewrite Hcell. destruct (decide (n < INT_MAX)) as [_|Hover]; [|lia].
    rewrite (IH (n + 1) (<[Z.to_nat n := v]> dst)); simpl;
      try assumption; try lia.
    + rewrite insert_insert_eq. do 3 f_equal.
      replace (Z.to_nat (n + 1)) with (S (Z.to_nat n)) by lia.
      rewrite (take_S_r _ _ v) by (apply list_lookup_insert_eq; lia).
      rewrite take_insert_ge by lia.
      rewrite <- app_assoc. simpl.
      rewrite <- (drop_S src v (Z.to_nat n)) by exact Hv. reflexivity.
    + rewrite lookup_insert_ne by congruence. exact Hsrc.
    + apply lookup_insert_eq.
    + rewrite length_insert. exact Hdlen.
Qed.

(** Copying an array onto itself changes nothing. *)
Lemma copy_loop_self (this : oid) (me : t) (l : loc) (cells : list DataType)
    (bound : Z) (k : nat) :
  data me = Some l -> Z.of_nat (length cells) = bound -> bound <= INT_MAX ->
  forall (n : Z) (mem : memory),
    Z.to_nat (bound - n) = k -> 0 <= n ->
    objects mem !! this = Some me -> arrays mem !! l = Some cells ->
    for_loop n bound (copy_cell this this) mem = Returns mem.
Proof.
  intros Hl Hlen Hmax.
  induction k as [|k IH]; intros n mem Hk Hn Hme Hcells;
    rewrite for_loop_step; destruct (decide (n < bound)) as [Hlt|Hge]; try lia;
    [reflexivity|].
  destruct (copy_cell_distinct this this me me l l cells cells n mem)
    as [v [Hv Hcell]]; try assumption; try lia.
  rewrite Hcell. destruct (decide (n < INT_MAX)) as [_|Hover]; [|lia].
  rewrite list_insert_id by exact Hv.
  rewrite insert_id by exact Hcells. rewrite memory_eta.
  apply IH; try assumption; lia.
Qed.

(** With a bound past [INT_MAX] the counter of the loop would have to
    be incremented past [INT_MAX]: [for_loop] gives no result there. *)
Lemma copy_loop_overflow (this rhs : oid) (me r : t) (to from : loc)
    (src : list DataType) (bound : Z) (k : nat) :
  data me = Some to -> data r = Some from -> to <> from ->
  Z.of_nat (length src) = bound -> INT_MAX < bound ->
  forall (n : Z) (dst : list DataType) (mem : memory),
    Z.to_nat (INT_MAX - n) = k -> 0 <= n <= INT_MAX ->
    objects mem !! this = Some me -> objects mem !! rhs = Some r ->
    arrays mem !! from = Some src -> arrays mem !! to = Some dst ->
    Z.of_nat (length dst) = bound ->
    for_loop n bound (copy_cell this rhs) mem = Fails.
Proof.
  intros Hto Hfrom Hne Hlen Hmax.
  induction k as [|k IH]; intros n dst mem Hk Hn Hme Hr Hsrc Hdst Hdlen;
    rewrite for_loop_step; destruct (decide (n < bound)) as [Hlt|Hge]; try lia;
    destruct (copy_cell_distinct this rhs me r to from src dst n mem)
      as [v [Hv Hcell]]; try assumption; try lia;
    rewrite Hcell; destruct (decide (n < INT_MAX)) as [Hin|Hover]; try lia;
    try reflexivity.
  apply (IH (n + 1) (<[Z.to_nat n := v]> dst)); simpl; try assumption; try lia.
  - rewrite lookup_insert_ne by congruence. exact Hsrc.
  - apply lookup_insert_eq.
  - rewrite length_insert. exact Hdlen.
Qed.

(** *** What the operations leave in memory *)

Lemma copy_members_null (this rhs : oid) (me r : t) (mem : memory) :
  objects mem !! this = Some me -> objects mem !! rhs = Some r ->
  data r = None ->
  AbstractProperty.copy_members DataType allocate junk this rhs mem
  = Returns {| objects := <[this := {| size := size r; data := None |}]> (objects mem);
               arrays := arrays mem |}.
Proof.
  intros Hme Hr Hnull.
  unfold AbstractProperty.copy_members, AbstractProperty.get_size,
    AbstractProperty.set_size, AbstractProperty.get_data,
    AbstractProperty.set_data.
  rewrite Hr. simpl. rewrite Hme. simpl.
  assert (Hd : data <$> (<[this := {| size := size r; data := data me |}]>
                 (objects mem) !! rhs) = Some None).
  { destruct (decide (this = rhs)) as [->|Hne].
    - rewrite lookup_insert_eq. simpl. congruence.
    - rewrite lookup_insert_ne by exact Hne. rewrite Hr. simpl. congruence. }
  destruct (<[this := {| size := size r; data := data me |}]> (objects mem) !! rhs)
    as [r'|]; [|discriminate].
  simpl in Hd. injection Hd as Hd. simpl. rewrite Hd.
  rewrite lookup_insert_eq. simpl. rewrite insert_insert_eq. reflexivity.
Qed.

Lemma copy_members_distinct (this rhs : oid) (me r : t) (from : loc)
    (src : list DataType) (mem : memory) :
  this <> rhs ->
  objects mem !! this = Some me -> objects mem !! rhs = Some r ->
  data r = Some from -> arrays mem !! from = Some src ->
  Z.of_nat (length src) = size r ->
  let l := allocate (dom (arrays mem)) in
  AbstractProperty.copy_members DataType allocate junk this rhs mem
  = if decide (size r <= INT_MAX) then
      Returns {| objects := <[this := {| size := size r; data := Some l |}]> (objects mem);
                 arrays := <[l := src]> (arrays mem) |}
    else Fails.
Proof.
  intros Hne Hme Hr Hfrom Hsrc Hlen l.
  assert (Hfresh : arrays mem !! l = None) by apply allocate_not_alive.
  assert (Hlfrom : l <> from) by congruence.
  unfold AbstractProperty.copy_members, AbstractProperty.get_size,
    AbstractProperty.set_size, AbstractProperty.get_data,
    AbstractProperty.set_data, AbstractProperty.new_array.
  rewrite Hr. simpl. rewrite Hme. simpl.
  rewrite lookup_insert_ne by exact Hne. rewrite Hr. simpl. rewrite Hfrom.
  rewrite lookup_insert_eq. simpl. rewrite lookup_insert_eq. simpl.
  rewrite !insert_insert_eq. fold l.
  set (me' := {| size := size r; data := Some l |}).
  set (mem' := {| objects := <[this := me']> (objects mem);
                  arrays := <[l := map junk (seq 0 (Z.to_nat (size r)))]> (arrays mem) |}).
  assert (Hdlen : Z.of_nat (length (map junk (seq 0 (Z.to_nat (size r))))) = size r)
    by (apply new_cells_length; lia).
  destruct (decide (size r <= INT_MAX)) as [Hmax|Hover].
  - rewrite (copy_loop_distinct this rhs me' r l from src (size r)
               (Z.to_nat (size r - 0)) eq_refl Hfrom Hlfrom Hlen Hmax 0
               (map junk (seq 0 (Z.to_nat (size r)))) mem');
      subst mem'; simpl; try reflexivity; try lia.
    + rewrite insert_insert_eq. reflexivity.
    + apply lookup_insert_eq.
    + rewrite lookup_insert_ne by exact Hne. exact Hr.
    + rewrite lookup_insert_ne by exact Hlfrom. exact Hsrc.
    + apply lookup_insert_eq.
  - apply (copy_loop_overflow this rhs me' r l from src (size r)
             (Z.to_nat (INT_MAX - 0)) eq_refl Hfrom Hlfrom Hlen ltac:(lia) 0
             (map junk (seq 0 (Z.to_nat (size r)))) mem');
      subst mem'; simpl; try reflexivity; try (unfold INT_MAX; lia); try exact Hdlen.
    + apply lookup_insert_eq.
    + rewrite lookup_insert_ne by exact Hne. exact Hr.
    + rewrite lookup_insert_ne by exact Hlfrom. exact Hsrc.
    + apply lookup_insert_eq.
Qed.

Lemma move_members_memory (this rhs : oid) (me r : t) (mem : memory) :
  this <> rhs ->
  objects mem !! this = Some me -> objects mem !! rhs = Some r ->
  AbstractProperty.move_members DataType this rhs mem
  = Returns {| objects :=
                 match data r with
                 | None => <[this := {| size := size r; data := None |}]> (objects mem)
                 | Some l =>
                     <[rhs := {| size := size r; data := None |}]>
                       (<[this := {| size := size r; data := Some l |}]> (objects mem))
                 end;
               arrays := arrays mem |}.
Proof.
  intros Hne Hme Hr.
  unfold AbstractProperty.move_members, AbstractProperty.get_size,
    AbstractProperty.set_size, AbstractProperty.get_data,
    AbstractProperty.set_data.
  rewrite Hr. simpl. rewrite Hme. simpl.
  rewrite lookup_insert_ne by exact Hne. rewrite Hr. simpl.
  destruct (data r) as [l|]; simpl; rewrite lookup_insert_eq; simpl;
    rewrite insert_insert_eq; [|reflexivity].
  rewrite lookup_insert_ne by exact Hne. rewrite Hr. reflexivity.
Qed.

Lemma consistent_transfer (this rhs : oid) (r : t) (l : loc) (mem : memory) :
  consistent mem ->
  objects mem !! this = None -> objects mem !! rhs = Some r ->
  data r = Some l ->
  consistent
    {| objects := <[rhs := {| size := size r; data := None |}]>
                    (<[this := {| size := size r; data := Some l |}]> (objects mem));
       arrays := arrays mem |}.
Proof.
  intros Hcons Hthis Hr Hl.
  assert (Hne : this <> rhs) by congruence.
  destruct (data_alive _ _ Hcons rhs r l Hr Hl) as [cells [Hcells Hlen]].
  pose proof (consistent_without rhs r mem Hcons Hr) as H1.
  unfold AbstractProperty.without in H1. rewrite Hl in H1.
  pose proof (consistent_with_array this (size r) l cells _ H1) as H2.
  simpl in H2. rewrite insert_delete_id in H2 by exact Hcells.
  specialize (H2 ltac:(rewrite lookup_delete_ne by congruence; exact Hthis)
                 ltac:(apply lookup_delete_eq) Hlen).
  pose proof (consistent_with_null rhs (size r) _ H2) as H3. simpl in H3.
  specialize (H3 ltac:(rewrite lookup_insert_ne by exact Hne; apply lookup_delete_eq)).
  rewrite (insert_insert_ne _ rhs this) in H3 by congruence.
  rewrite (insert_insert_ne _ rhs this) by congruence.
  rewrite insert_delete_eq in H3. exact H3.
Qed.

(** *** The operations *)

(** X1.  [setSize(n)] returns on every object of a consistent memory and
    keeps the memory consistent: the object has size [n] and a new array
    of [n] cells, the array it had is gone, and nothing else changes. *)
Theorem setSize_replaces_array (this : oid) (n : Z) (obj : t) (mem : memory) :
  consistent mem ->
  objects mem !! this = Some obj ->
  0 <= n ->
  exists mem' l,
    setSize this n mem = Returns mem'
    /\ consistent mem'
    /\ getSize this mem' = Returns n
    /\ getData this mem' = Returns (Some l)
    /\ arrays mem' !! l = Some (map junk (seq 0 (Z.to_nat n)))
    /\ (forall old, data obj = Some old -> old <> l -> arrays mem' !! old = None)
    /\ (forall q, q <> this -> objects mem' !! q = objects mem !! q)
    /\ (forall l', l' <> l -> data obj <> Some l' ->
          arrays mem' !! l' = arrays mem !! l').
Proof.
  intros Hcons Hobj Hn.
  assert (Halive : forall l, data obj = Some l -> is_Some (arrays mem !! l)).
  { intros l Hl. destruct (data_alive _ _ Hcons this obj l Hobj Hl) as [cells [Hc _]].
    eexists; exact Hc. }
  rewrite (setSize_memory this n mem obj Hobj Halive).
  set (kept := match data obj with
               | Some l => delete l (arrays mem)
               | None => arrays mem
               end).
  set (l := allocate (dom kept)).
  assert (Hfresh : kept !! l = None) by apply allocate_not_alive.
  eexists _, l. split; [reflexivity|]. split.
  { pose proof (consistent_without this obj mem Hcons Hobj) as H1.
    pose proof (consistent_with_array this n l
                  (map junk (seq 0 (Z.to_nat n))) _ H1) as H2.
    simpl in H2. rewrite insert_delete_eq in H2.
    apply H2; [apply lookup_delete_eq|exact Hfresh|apply new_cells_length; exact Hn]. }
  repeat split.
  - unfold AbstractProperty.getSize, AbstractProperty.get_size. simpl.
    rewrite lookup_insert_eq. reflexivity.
  - unfold AbstractProperty.getData, AbstractProperty.get_data. simpl.
    rewrite lookup_insert_eq. reflexivity.
  - simpl. apply lookup_insert_eq.
  - intros old Hold Hne. simpl. rewrite lookup_insert_ne by congruence.
    subst kept. rewrite Hold. apply lookup_delete_eq.
  - intros q Hq. simpl. apply lookup_insert_ne. congruence.
  - intros l' Hl' Hdata. simpl. rewrite lookup_insert_ne by congruence.
    subst kept. destruct (data obj) as [old|]; [|reflexivity].
    apply lookup_delete_ne. congruence.
Qed.

(** X2.  The copy constructor makes a deep copy: on a consistent memory and
    for a source of at most [INT_MAX] cells it returns, the memory stays
    consistent, the source is untouched, and the new object has the
    source's size and, unless the source has no array, a new array of its
    own with the same cells. *)
Theorem copy_construct_deep (this rhs : oid) (r : t) (mem : memory) :
  consistent mem ->
  objects mem !! this = None ->
  objects mem !! rhs = Some r ->
  size r <= INT_MAX ->
  exists mem',
    copy_construct this rhs mem = Returns mem'
    /\ consistent mem'
    /\ getSize this mem' = Returns (size r)
    /\ (forall q, q <> this -> objects mem' !! q = objects mem !! q)
    /\ match data r with
       | None => getData this mem' = Returns None /\ arrays mem' = arrays mem
       | Some from =>
           exists l cells,
             getData this mem' = Returns (Some l)
             /\ l <> from
             /\ arrays mem !! l = None
             /\ arrays mem !! from = Some cells
             /\ arrays mem' = <[l := cells]> (arrays mem)
       end.
Proof.
  intros Hcons Hthis Hr Hmax.
  assert (Hne : this <> rhs) by congruence.
  unfold AbstractProperty.copy_construct, AbstractProperty.copy_assign.
  set (mem0 := AbstractProperty.enter_constructor DataType this mem).
  assert (Hme0 : objects mem0 !! this = Some {| size := 0; data := None |})
    by apply lookup_insert_eq.
  assert (Hr0 : objects mem0 !! rhs = Some r)
    by (simpl; rewrite lookup_insert_ne by exact Hne; exact Hr).
  destruct (data r) as [from|] eqn:Hfrom.
  - destruct (data_alive _ _ Hcons rhs r from Hr Hfrom) as [cells [Hcells Hlen]].
    rewrite (copy_members_distinct this rhs _ r from cells mem0 Hne Hme0 Hr0
               Hfrom Hcells Hlen).
    rewrite decide_True by exact Hmax. simpl. rewrite insert_insert_eq.
    set (l := allocate (dom (arrays mem))).
    assert (Hfresh : arrays mem !! l = None) by apply allocate_not_alive.
    eexists. split; [reflexivity|].
    split; [apply consistent_with_array; assumption|]. repeat split.
    + unfold AbstractProperty.getSize, AbstractProperty.get_size. simpl.
      rewrite lookup_insert_eq. reflexivity.
    + intros q Hq. simpl. apply lookup_insert_ne. congruence.
    + exists l, cells. repeat split; try assumption.
      * unfold AbstractProperty.getData, AbstractProperty.get_data. simpl.
        rewrite lookup_insert_eq. reflexivity.
      * congruence.
  - rewrite (copy_members_null this rhs _ r mem0 Hme0 Hr0 Hfrom).
    simpl. rewrite insert_insert_eq.
    eexists. split; [reflexivity|].
    split; [apply consistent_with_null; assumption|]. repeat split.
    + unfold AbstractProperty.getSize, AbstractProperty.get_size. simpl.
      rewrite lookup_insert_eq. reflexivity.
    + intros q Hq. simpl. apply lookup_insert_ne. congruence.
    + unfold AbstractProperty.getData, AbstractProperty.get_data. simpl.
      rewrite lookup_insert_eq. reflexivity.
Qed.

(** X4.  The move constructor hands the array over: no array is made or
    copied, the new object has the source's size and array, and the
    source is left with no array but with the size it had. *)
Theorem move_construct_transfers (this rhs : oid) (r : t) (mem : memory) :
  consistent mem ->
  objects mem !! this = None ->
  objects mem !! rhs = Some r ->
  exists mem',
    move_construct this rhs mem = Returns mem'
    /\ consistent mem'
    /\ arrays mem' = arrays mem
    /\ getSize this mem' = Returns (size r)
    /\ getData this mem' = Returns (data r)
    /\ getSize rhs mem' = Returns (size r)
    /\ getData rhs mem' = Returns None
    /\ (forall q, q <> this -> q <> rhs -> objects mem' !! q = objects mem !! q).
Proof.
  intros Hcons Hthis Hr.
  assert (Hne : this <> rhs) by congruence.
  unfold AbstractProperty.move_construct.
  rewrite (move_members_memory this rhs {| size := 0; data := None |} r
             (AbstractProperty.enter_constructor DataType this mem) Hne
             ltac:(apply lookup_insert_eq)
             ltac:(simpl; rewrite lookup_insert_ne by exact Hne; exact Hr)).
  simpl. eexists. split; [reflexivity|].
  unfold AbstractProperty.getSize, AbstractProperty.get_size,
    AbstractProperty.getData, AbstractProperty.get_data. simpl.
  destruct (data r) as [l|] eqn:Hl; rewrite insert_insert_eq.
  - split; [apply consistent_transfer; assumption|].
    rewrite lookup_insert_eq, lookup_insert_ne, lookup_insert_eq by congruence.
    repeat split.
    intros q Hq Hq'. rewrite !lookup_insert_ne by congruence. reflexivity.
  - split; [apply consistent_with_null; assumption|].
    rewrite lookup_insert_eq, lookup_insert_ne, Hr by congruence. simpl.
    rewrite Hl. repeat split.
    intros q Hq Hq'. rewrite !lookup_insert_ne by congruence. reflexivity.
Qed.

(** X5.  The destructor takes the object and its array out of memory and
    leaves the rest consistent. *)
Theorem destructor_frees (this : oid) (obj : t) (mem : memory) :
  consistent mem ->
  objects mem !! this = Some obj ->
  destructor this mem = Returns (without this obj mem)
  /\ consistent (without this obj mem)
  /\ (forall l, data obj = Some l -> arrays (without this obj mem) !! l = None)
  /\ (forall l, data obj <> Some l ->
        arrays (without this obj mem) !! l = arrays mem !! l).
Proof.
  intros Hcons Hobj. split; [|split; [|split]].
  - unfold AbstractProperty.destructor, AbstractProperty.get_data,
      AbstractProperty.delete_array, AbstractProperty.without,
      AbstractProperty.leave_destructor.
    rewrite Hobj. simpl. destruct (data obj) as [l|] eqn:Hl; [|reflexivity].
    destruct (data_alive _ _ Hcons this obj l Hobj Hl) as [cells [Hcells _]].
    rewrite Hcells. reflexivity.
  - apply consistent_without; assumption.
  - intros l Hl. unfold AbstractProperty.without. simpl. rewrite Hl.
    apply lookup_delete_eq.
  - intros l Hl. unfold AbstractProperty.without. simpl.
    destruct (data obj) as [l0|]; [|reflexivity].
    apply lookup_delete_ne. congruence.
Qed.

(** X6.  Copying an object and destroying the copy gives back the memory as
    it was. *)
Theorem copy_then_destroy (this rhs : oid) (r : t) (mem : memory) :
  consistent mem ->
  objects mem !! this = None ->
  objects mem !! rhs = Some r ->
  size r <= INT_MAX ->
  (let! mem' := copy_construct this rhs mem in destructor this mem')
  = Returns mem.
Proof.
  intros Hcons Hthis Hr Hmax.
  assert (Hne : this <> rhs) by congruence.
  unfold AbstractProperty.copy_construct.
  set (mem0 := AbstractProperty.enter_constructor DataType this mem).
  assert (Hme0 : objects mem0 !! this = Some {| size := 0; data := None |})
    by apply lookup_insert_eq.
  assert (Hr0 : objects mem0 !! rhs = Some r)
    by (simpl; rewrite lookup_insert_ne by exact Hne; exact Hr).
  destruct (data r) as [from|] eqn:Hfrom.
  - destruct (data_alive _ _ Hcons rhs r from Hr Hfrom) as [cells [Hcells Hlen]].
    rewrite (copy_members_distinct this rhs _ r from cells mem0 Hne Hme0 Hr0
               Hfrom Hcells Hlen).
    rewrite decide_True by exact Hmax. simpl.
    unfold AbstractProperty.destructor, AbstractProperty.get_data,
      AbstractProperty.delete_array, AbstractProperty.leave_destructor. simpl.
    rewrite lookup_insert_eq. simpl. rewrite lookup_insert_eq. simpl.
    rewrite !delete_insert_eq, (delete_id _ _ Hthis).
    rewrite (delete_id (arrays mem)) by apply allocate_not_alive.
    rewrite memory_eta. reflexivity.
  - rewrite (copy_members_null this rhs _ r mem0 Hme0 Hr0 Hfrom). simpl.
    unfold AbstractProperty.destructor, AbstractProperty.get_data,
      AbstractProperty.leave_destructor. simpl.
    rewrite lookup_insert_eq. simpl.
    rewrite !delete_insert_eq, (delete_id _ _ Hthis).
    rewrite memory_eta. reflexivity.
Qed.

(** X7.  Moving an object into a new one and destroying both is the same as
    destroying the object: the array is freed once. *)
Theorem move_then_destroy_both (this rhs : oid) (r : t) (mem : memory) :
  consistent mem ->
  objects mem !! this = None ->
  objects mem !! rhs = Some r ->
  (let! mem1 := move_construct this rhs mem in
   let! mem2 := destructor rhs mem1 in
   destructor this mem2)
  = destructor rhs mem.
Proof.
  intros Hcons Hthis Hr.
  assert (Hne : this <> rhs) by congruence.
  unfold AbstractProperty.move_construct.
  rewrite (move_members_memory this rhs {| size := 0; data := None |} r
             (AbstractProperty.enter_constructor DataType this mem) Hne
             ltac:(apply lookup_insert_eq)
             ltac:(simpl; rewrite lookup_insert_ne by exact Hne; exact Hr)).
  unfold AbstractProperty.destructor, AbstractProperty.get_data,
    AbstractProperty.delete_array, AbstractProperty.leave_destructor. simpl.
  rewrite Hr. simpl.
  destruct (data r) as [l|] eqn:Hl; rewrite insert_insert_eq.
  - destruct (data_alive _ _ Hcons rhs r l Hr Hl) as [cells [Hcells _]].
    rewrite lookup_insert_eq. simpl.
    rewrite delete_insert_eq, lookup_delete_ne, lookup_insert_eq by congruence.
    simpl. rewrite Hcells. simpl. do 2 f_equal.
    rewrite delete_delete, delete_insert_eq, (delete_id _ _ Hthis).
    reflexivity.
  - rewrite lookup_insert_ne, Hr by congruence. simpl. rewrite Hl. simpl.
    rewrite lookup_delete_ne, lookup_insert_eq by congruence. simpl.
    do 2 f_equal.
    rewrite delete_delete, delete_insert_eq, (delete_id _ _ Hthis).
    reflexivity.
Qed.

(** An array stays alive and unowned when its owner is given another
    array (or none). *)
Lemma leaked_after_overwrite (this : oid) (me : t) (old : loc) (sz : Z)
    (d : option loc) (A' : gmap loc (list DataType)) (mem : memory) :
  consistent mem ->
  objects mem !! this = Some me -> data me = Some old ->
  d <> Some old ->
  A' !! old = arrays mem !! old ->
  leaked old {| objects := <[this := {| size := sz; data := d |}]> (objects mem);
                arrays := A' |}.
Proof.
  intros Hcons Hme Hold Hd HA. split; simpl.
  - rewrite HA.
    destruct (data_alive _ _ Hcons this me old Hme Hold) as [cells [Hcells _]].
    eexists; exact Hcells.
  - intros p obj Hp Hobj.
    destruct (decide (p = this)) as [->|Hne].
    + rewrite lookup_insert_eq in Hp. injection Hp as <-. simpl in Hobj. congruence.
    + rewrite lookup_insert_ne in Hp by congruence.
      apply Hne. exact (data_unshared _ _ Hcons p this obj me old Hp Hme Hobj Hold).
Qed.

(** X8.  Copy assignment between two objects gives the target the source's
    size and a copy of its cells in a new array, but the array the target
    had is never freed: it stays alive with no object pointing to it. *)
Theorem copy_assign_leaks (this rhs : oid) (me r : t) (old : loc) (mem : memory) :
  consistent mem ->
  this <> rhs ->
  objects mem !! this = Some me ->
  data me = Some old ->
  objects mem !! rhs = Some r ->
  size r <= INT_MAX ->
  exists mem',
    copy_assign this rhs mem = Returns mem'
    /\ leaked old mem'
    /\ getSize this mem' = Returns (size r)
    /\ objects mem' !! rhs = Some r
    /\ match data r with
       | None => getData this mem' = Returns None
       | Some from =>
           exists l cells,
             getData this mem' = Returns (Some l)
             /\ l <> from /\ l <> old
             /\ arrays mem !! from = Some cells
             /\ arrays mem' !! from = Some cells
             /\ arrays mem' !! l = Some cells
       end.
Proof.
  intros Hcons Hne Hme Hold Hr Hmax.
  destruct (data_alive _ _ Hcons this me old Hme Hold) as [ocells [Hocells _]].
  unfold AbstractProperty.copy_assign.
  destruct (data r) as [from|] eqn:Hfrom.
  - destruct (data_alive _ _ Hcons rhs r from Hr Hfrom) as [cells [Hcells Hlen]].
    rewrite (copy_members_distinct this rhs me r from cells mem Hne Hme Hr
               Hfrom Hcells Hlen).
    rewrite decide_True by exact Hmax.
    set (l := allocate (dom (arrays mem))).
    assert (Hfresh : arrays mem !! l = None) by apply allocate_not_alive.
    eexists. split; [reflexivity|]. split.
    { apply (leaked_after_overwrite this me old); try assumption.
      - congruence.
      - apply lookup_insert_ne. congruence. }
    unfold AbstractProperty.getSize, AbstractProperty.get_size,
      AbstractProperty.getData, AbstractProperty.get_data. simpl.
    rewrite lookup_insert_eq, lookup_insert_ne by exact Hne. simpl.
    repeat split; [exact Hr|].
    exists l, cells. repeat split; try congruence.
    + rewrite lookup_insert_ne by congruence. exact Hcells.
    + apply lookup_insert_eq.
  - rewrite (copy_members_null this rhs me r mem Hme Hr Hfrom).
    eexists. split; [reflexivity|]. split.
    { apply (leaked_after_overwrite this me old); try assumption;
        [discriminate|reflexivity]. }
    unfold AbstractProperty.getSize, AbstractProperty.get_size,
      AbstractProperty.getData, AbstractProperty.get_data. simpl.
    rewrite lookup_insert_eq, lookup_insert_ne by exact Hne. simpl.
    repeat split. exact Hr.
Qed.

Lemma copy_members_self (this : oid) (me : t) (old : loc)
    (cells : list DataType) (mem : memory) :
  objects mem !! this = Some me -> data me = Some old ->
  0 <= size me <= INT_MAX ->
  let l := allocate (dom (arrays mem)) in
  AbstractProperty.copy_members DataType allocate junk this this mem
  = Returns {| objects := <[this := {| size := size me; data := Some l |}]> (objects mem);
               arrays := <[l := map junk (seq 0 (Z.to_nat (size me)))]> (arrays mem) |}.
Proof.
  intros Hme Hold Hsize l.
  unfold AbstractProperty.copy_members, AbstractProperty.get_size,
    AbstractProperty.set_size, AbstractProperty.get_data,
    AbstractProperty.set_data, AbstractProperty.new_array.
  rewrite Hme. simpl. rewrite lookup_insert_eq. simpl. rewrite Hold.
  rewrite lookup_insert_eq. simpl.
  rewrite !insert_insert_eq. fold l.
  apply (copy_loop_self this {| size := size me; data := Some l |} l
           (map junk (seq 0 (Z.to_nat (size me)))) (size me)
           (Z.to_nat (size me - 0)) eq_refl);
    simpl; try reflexivity; try lia.
  - apply new_cells_length. lia.
  - apply lookup_insert_eq.
  - apply lookup_insert_eq.
Qed.

(** X9.  Copy assignment of an object to itself loses its cells: the object
    ends with a new array holding what the allocator put there, and the
    array with the old cells stays alive with no object pointing to it. *)
Theorem self_copy_assign_loses_cells (this : oid) (me : t) (old : loc)
    (mem : memory) :
  consistent mem ->
  objects mem !! this = Some me ->
  data me = Some old ->
  size me <= INT_MAX ->
  exists mem' l cells,
    copy_assign this this mem = Returns mem'
    /\ getSize this mem' = Returns (size me)
    /\ getData this mem' = Returns (Some l)
    /\ l <> old
    /\ arrays mem' !! l = Some (map junk (seq 0 (Z.to_nat (size me))))
    /\ arrays mem !! old = Some cells
    /\ arrays mem' !! old = Some cells
    /\ leaked old mem'.
Proof.
  intros Hcons Hme Hold Hmax.
  destruct (data_alive _ _ Hcons this me old Hme Hold) as [cells [Hcells Hlen]].
  unfold AbstractProperty.copy_assign.
  rewrite (copy_members_self this me old cells mem Hme Hold ltac:(lia)).
  set (l := allocate (dom (arrays mem))).
  assert (Hfresh : arrays mem !! l = None) by apply allocate_not_alive.
  assert (Hlold : l <> old) by congruence.
  eexists _, l, cells. split; [reflexivity|].
  unfold AbstractProperty.getSize, AbstractProperty.get_size,
    AbstractProperty.getData, AbstractProperty.get_data. simpl.
  rewrite lookup_insert_eq. simpl.
  repeat split; try assumption.
  - apply lookup_insert_eq.
  - rewrite lookup_insert_ne by exact Hlold. exact Hcells.
  - simpl. rewrite lookup_insert_ne by exact Hlold. eexists; exact Hcells.
  - simpl. intros p obj Hp Hobj.
    destruct (decide (p = this)) as [->|Hne].
    + rewrite lookup_insert_eq in Hp. injection Hp as <-. simpl in Hobj. congruence.
    + rewrite lookup_insert_ne in Hp by congruence.
      apply Hne. exact (data_unshared _ _ Hcons p this obj me old Hp Hme Hobj Hold).
Qed.

(** X10.  Move assignment between two objects hands the source's array and
    size to the target and leaves the source with no array; no array is
    made, copied or freed, so an array the target had stays alive with no
    object pointing to it.  Move assignment of an object to itself
    changes nothing. *)
Theorem move_assign_transfers (this rhs : oid) (me r : t) (mem : memory) :
  consistent mem ->
  this <> rhs ->
  objects mem !! this = Some me ->
  objects mem !! rhs = Some r ->
  exists mem',
    move_assign this rhs mem = Returns mem'
    /\ arrays mem' = arrays mem
    /\ getSize this mem' = Returns (size r)
    /\ getData this mem' = Returns (data r)
    /\ getSize rhs mem' = Returns (size r)
    /\ getData rhs mem' = Returns None
    /\ (forall old, data me = Some old -> leaked old mem')
    /\ move_assign this this mem = Returns mem.
Proof.
  intros Hcons Hne Hme Hr.
  unfold AbstractProperty.move_assign.
  rewrite decide_False by exact Hne. rewrite decide_True by reflexivity.
  rewrite (move_members_memory this rhs me r mem Hne Hme Hr).
  eexists. split; [reflexivity|]. split; [reflexivity|].
  unfold AbstractProperty.getSize, AbstractProperty.get_size,
    AbstractProperty.getData, AbstractProperty.get_data. simpl.
  assert (Hdr : forall old, data me = Some old -> data r <> Some old).
  { intros old Hold Hrold. apply Hne.
    exact (data_unshared _ _ Hcons this rhs me r old Hme Hr Hold Hrold). }
  destruct (data r) as [l|] eqn:Hl.
  - rewrite lookup_insert_eq, lookup_insert_ne, lookup_insert_eq by congruence.
    simpl. repeat split.
    + simpl. destruct (data_alive _ _ Hcons this me old Hme H) as [c [Hc _]].
      eexists; exact Hc.
    + simpl. intros p obj Hp Hobj.
      destruct (decide (p = rhs)) as [->|Hp1].
      { rewrite lookup_insert_eq in Hp. injection Hp as <-. discriminate. }
      rewrite lookup_insert_ne in Hp by congruence.
      destruct (decide (p = this)) as [->|Hp2].
      { rewrite lookup_insert_eq in Hp. injection Hp as <-. simpl in Hobj.
        exact (Hdr old H Hobj). }
      rewrite lookup_insert_ne in Hp by congruence.
      apply Hp2. exact (data_unshared _ _ Hcons p this obj me old Hp Hme Hobj H).
  - rewrite lookup_insert_eq, lookup_insert_ne, Hr by congruence.
    simpl. rewrite Hl. repeat split.
    + simpl. destruct (data_alive _ _ Hcons this me old Hme H) as [c [Hc _]].
      eexists; exact Hc.
    + simpl. intros p obj Hp Hobj.
      destruct (decide (p = this)) as [->|Hp2].
      { rewrite lookup_insert_eq in Hp. injection Hp as <-. discriminate. }
      rewrite lookup_insert_ne in Hp by congruence.
      apply Hp2. exact (data_unshared _ _ Hcons p this obj me old Hp Hme Hobj H).
Qed.

(** X11.  An object that is constructed, given a size and destroyed leaves
    the memory as it was. *)
Theorem construct_setSize_destroy (this : oid) (n : Z) (mem : memory) :
  objects mem !! this = None ->
  0 <= n ->
  (let! mem1 := construct this mem in
   let! mem2 := setSize this n mem1 in
   destructor this mem2)
  = Returns mem.
Proof.
  intros Hthis Hn.
  unfold AbstractProperty.construct, AbstractProperty.enter_constructor,
    AbstractProperty.set_size, AbstractProperty.set_data. simpl.
  rewrite lookup_insert_eq. simpl. rewrite lookup_insert_eq. simpl.
  rewrite !insert_insert_eq.
  rewrite (setSize_memory this n _ {| size := 0; data := None |});
    [|apply lookup_insert_eq|discriminate].
  simpl.
  unfold AbstractProperty.destructor, AbstractProperty.get_data,
    AbstractProperty.delete_array, AbstractProperty.leave_destructor. simpl.
  rewrite lookup_insert_eq. simpl. rewrite lookup_insert_eq. simpl.
  rewrite !delete_insert_eq, (delete_id _ _ Hthis).
  rewrite (delete_id (arrays mem)) by apply allocate_not_alive.
  rewrite memory_eta. reflexivity.
Qed.

End ClassFacts.

(** *** The sample memories *)

Lemma sample_allocate_fresh (X : gset loc) : sample_allocate X ∉ X.
Proof. apply is_fresh. Qed.

Lemma consistent_empty (DataType : Type) :
  consistent DataType {| objects := ∅; arrays := ∅ |}.
Proof.
  split; simpl.
  - intros p obj l Hp. rewrite lookup_empty in Hp. discriminate.
  - intros p q obj obj' l Hp. rewrite lookup_empty in Hp. discriminate.
  - intros l [cells Hl]. rewrite lookup_empty in Hl. discriminate.
Qed.

Lemma sample_memory_consistent : consistent nat sample_memory.
Proof.
  unfold sample_memory.
  pose proof (consistent_with_array nat 1%positive 2 1%positive [10%nat; 20%nat] _
                (consistent_empty nat) eq_refl eq_refl eq_refl) as H1.
  pose proof (consistent_with_null nat 2%positive 0 _ H1 eq_refl) as H2.
  exact (consistent_with_array nat 3%positive 1 2%positive [7%nat] _ H2
           eq_refl eq_refl eq_refl).
Qed.

Lemma setSize_replaces_array_witness :
  consistent nat sample_memory
  /\ exists mem' l,
       setSize nat sample_allocate sample_junk 1%positive 3 sample_memory
         = Returns mem'
       /\ consistent nat mem'
       /\ getSize nat 1%positive mem' = Returns 3
       /\ getData nat 1%positive mem' = Returns (Some l)
       /\ arrays mem' !! l = Some [0%nat; 0%nat; 0%nat].
Proof.
  split; [exact sample_memory_consistent|].
  destruct (setSize_replaces_array nat sample_allocate sample_junk
              sample_allocate_fresh 1%positive 3
              {| size := 2; data := Some 1%positive |} sample_memory
              sample_memory_consistent eq_refl)
    as (mem' & l & H1 & H2 & H3 & H4 & H5 & _); [lia|].
  exists mem', l. repeat (split; [assumption|]); assumption.
Defined.

Lemma copy_construct_deep_witness :
  consistent nat sample_memory
  /\ objects sample_memory !! 4%positive = None
  /\ exists mem' l,
       copy_construct nat sample_allocate sample_junk 4%positive 1%positive
         sample_memory = Returns mem'
       /\ consistent nat mem'
       /\ getSize nat 4%positive mem' = Returns 2
       /\ getData nat 4%positive mem' = Returns (Some l)
       /\ l <> 1%positive
       /\ arrays mem' = <[l := [10%nat; 20%nat]]> (arrays sample_memory).
Proof.
  split; [exact sample_memory_consistent|]. split; [reflexivity|].
  destruct (copy_construct_deep nat sample_allocate sample_junk
              sample_allocate_fresh 4%positive 1%positive
              {| size := 2; data := Some 1%positive |} sample_memory
              sample_memory_consistent eq_refl eq_refl)
    as (mem' & H1 & H2 & H3 & _ & l & cells & H4 & H5 & _ & H6 & H7);
    [unfold INT_MAX; simpl; lia|].
  exists mem', l. injection H6 as <-.
  repeat (split; [assumption|]); assumption.
Defined.

Lemma move_construct_transfers_witness :
  consistent nat sample_memory
  /\ exists mem',
       move_construct nat 4%positive 1%positive sample_memory = Returns mem'
       /\ consistent nat mem'
       /\ arrays mem' = arrays sample_memory
       /\ getSize nat 4%positive mem' = Returns 2
       /\ getData nat 4%positive mem' = Returns (Some 1%positive)
       /\ getSize nat 1%positive mem' = Returns 2
       /\ getData nat 1%positive mem' = Returns None.
Proof.
  split; [exact sample_memory_consistent|].
  destruct (move_construct_transfers nat 4%positive 1%positive
              {| size := 2; data := Some 1%positive |} sample_memory
              sample_memory_consistent eq_refl eq_refl)
    as (mem' & H1 & H2 & H3 & H4 & H5 & H6 & H7 & _).
  exists mem'. repeat (split; [assumption|]); assumption.
Defined.

Lemma destructor_frees_witness :
  consistent nat sample_memory
  /\ destructor nat 1%positive sample_memory
     = Returns (without nat 1%positive {| size := 2; data := Some 1%positive |}
                  sample_memory)
  /\ arrays (without nat 1%positive {| size := 2; data := Some 1%positive |}
               sample_memory) !! 1%positive = None.
Proof.
  split; [exact sample_memory_consistent|].
  destruct (destructor_frees nat 1%positive
              {| size := 2; data := Some 1%positive |} sample_memory
              sample_memory_consistent eq_refl) as (H1 & _ & H2 & _).
  split; [exact H1|]. apply H2. reflexivity.
Defined.

Lemma copy_then_destroy_witness :
  consistent nat sample_memory
  /\ (let! mem' := copy_construct nat sample_allocate sample_junk 4%positive
                     1%positive sample_memory in
      destructor nat 4%positive mem') = Returns sample_memory.
Proof.
  split; [exact sample_memory_consistent|].
  apply (copy_then_destroy nat sample_allocate sample_junk
           sample_allocate_fresh 4%positive 1%positive
           {| size := 2; data := Some 1%positive |} sample_memory
           sample_memory_consistent eq_refl eq_refl).
  unfold INT_MAX. simpl. lia.
Defined.

Lemma move_then_destroy_both_witness :
  consistent nat sample_memory
  /\ (let! mem1 := move_construct nat 4%positive 1%positive sample_memory in
      let! mem2 := destructor nat 1%positive mem1 in
      destructor nat 4%positive mem2)
     = destructor nat 1%positive sample_memory.
Proof.
  split; [exact sample_memory_consistent|].
  exact (move_then_destroy_both nat 4%positive 1%positive
           {| size := 2; data := Some 1%positive |} sample_memory
           sample_memory_consistent eq_refl eq_refl).
Defined.

Lemma copy_assign_leaks_witness :
  consistent nat sample_memory
  /\ exists mem',
       copy_assign nat sample_allocate sample_junk 3%positive 1%positive
         sample_memory = Returns mem'
       /\ leaked nat 2%positive mem'
       /\ getSize nat 3%positive mem' = Returns 2.
Proof.
  split; [exact sample_memory_consistent|].
  destruct (copy_assign_leaks nat sample_allocate sample_junk
              sample_allocate_fresh 3%positive 1%positive
              {| size := 1; data := Some 2%positive |}
              {| size := 2; data := Some 1%positive |} 2%positive sample_memory
              sample_memory_consistent)
    as (mem' & H1 & H2 & H3 & _);
    [discriminate|reflexivity|reflexivity|reflexivity|unfold INT_MAX; simpl; lia|].
  exists mem'. repeat (split; [assumption|]); assumption.
Defined.

Lemma self_copy_assign_loses_cells_witness :
  consistent nat sample_memory
  /\ exists mem' l,
       copy_assign nat sample_allocate sample_junk 1%positive 1%positive
         sample_memory = Returns mem'
       /\ getData nat 1%positive mem' = Returns (Some l)
       /\ arrays mem' !! l = Some [0%nat; 0%nat]
       /\ arrays mem' !! 1%positive = Some [10%nat; 20%nat]
       /\ leaked nat 1%positive mem'.
Proof.
  split; [exact sample_memory_consistent|].
  destruct (self_copy_assign_loses_cells nat sample_allocate sample_junk
              sample_allocate_fresh 1%positive
              {| size := 2; data := Some 1%positive |} 1%positive sample_memory
              sample_memory_consistent eq_refl eq_refl)
    as (mem' & l & cells & H1 & _ & H2 & _ & H3 & H4 & H5 & H6);
    [unfold INT_MAX; simpl; lia|].
  exists mem', l. injection H4 as <-.
  repeat (split; [assumption|]); assumption.
Defined.

Lemma move_assign_transfers_witness :
  consistent nat sample_memory
  /\ exists mem',
       move_assign nat 3%positive 1%positive sample_memory = Returns mem'
       /\ arrays mem' = arrays sample_memory
       /\ getData nat 3%positive mem' = Returns (Some 1%positive)
       /\ getData nat 1%positive mem' = Returns None
       /\ leaked nat 2%positive mem'.
Proof.
  split; [exact sample_memory_consistent|].
  destruct (move_assign_transfers nat 3%positive 1%positive
              {| size := 1; data := Some 2%positive |}
              {| size := 2; data := Some 1%positive |} sample_memory
              sample_memory_consistent)
    as (mem' & H1 & H2 & _ & H3 & _ & H4 & H5 & _);
    [discriminate|reflexivity|reflexivity|].
  exists mem'. repeat (split; [assumption|]). apply H5. reflexivity.
Defined.

Lemma construct_setSize_destroy_witness :
  objects sample_memory !! 4%positive = None
  /\ (let! mem1 := construct nat 4%positive sample_memory in
      let! mem2 := setSize nat sample_allocate sample_junk 4%positive 5 mem1 in
      destructor nat 4%positive mem2)
     = Returns sample_memory.
Proof.
  split; [reflexivity|].
  apply (construct_setSize_destroy nat sample_allocate sample_junk
           sample_allocate_fresh 4%positive 5 sample_memory eq_refl).
  lia.
Defined.

End AbstractPropertyFacts.

(** ** WrapperRule *)

Module WrapperRuleFacts.
Import WrapperRule.

Section RulesFacts.

Variable OtherRule : Type.
Variable FockSpace FockState : Register -> Type.
Variable OtherRule_clone : OtherRule -> OtherRule.
Variable OtherRule_isSatisfied :
  forall reg : Register, OtherRule -> FockSpace reg -> FockState reg -> bool.

(** The clone of a rule of another class answers as the rule does. *)
Hypothesis OtherRule_clone_isSatisfied :
  forall reg rule fockSpace fockState,
    OtherRule_isSatisfied reg (OtherRule_clone rule) fockSpace fockState
    = OtherRule_isSatisfied reg rule fockSpace fockState.

Local Abbreviation FockStateRule := (FockStateRule OtherRule).
Local Abbreviation t := (WrapperRule.t OtherRule).
Local Abbreviation clone := (clone OtherRule OtherRule_clone).
Local Abbreviation FockStateRule_clone :=
  (FockStateRule_clone OtherRule OtherRule_clone).
Local Abbreviation copy := (copy OtherRule OtherRule_clone).
Local Abbreviation assign := (assign OtherRule OtherRule_clone).
Local Abbreviation isSatisfied :=
  (isSatisfied OtherRule FockSpace FockState OtherRule_isSatisfied).
Local Abbreviation FockStateRule_isSatisfied :=
  (FockStateRule_isSatisfied OtherRule FockSpace FockState OtherRule_isSatisfied).
Local Abbreviation depth := (depth OtherRule).
Local Abbreviation FockStateRule_depth := (FockStateRule_depth OtherRule).

Lemma FockStateRule_clone_same (r : FockStateRule) :
  FockStateRule_depth (FockStateRule_clone r) = FockStateRule_depth r
  /\ forall reg fockSpace fockState,
       FockStateRule_isSatisfied reg (FockStateRule_clone r) fockSpace fockState
       = FockStateRule_isSatisfied reg r fockSpace fockState.
Proof.
  revert r.
  fix IH 1. intros [rule|[r]]; simpl.
  - split; [reflexivity|]. intros. apply OtherRule_clone_isSatisfied.
  - destruct (IH r) as [Hdepth Hsat]. split; [f_equal; exact Hdepth|exact Hsat].
Qed.

(** X12.  [clone()] gives a WrapperRule that answers [isSatisfied] as the
    original does, on both register types, through as many wrappers. *)
Theorem clone_same_answers (w : t) :
  depth (clone w) = depth w
  /\ forall reg fockSpace fockState,
       isSatisfied reg (clone w) fockSpace fockState
       = isSatisfied reg w fockSpace fockState.
Proof.
  destruct w as [r]. simpl.
  destruct (FockStateRule_clone_same r) as [Hdepth Hsat].
  split; [f_equal; exact Hdepth|exact Hsat].
Qed.

(** X13.  The copy constructor and the assignment operator store a clone of
    the WrapperRule itself, not of the rule it wraps: the copy answers
    [isSatisfied] as the original does, but through one wrapper more, and
    [n] copies in a row add [n] wrappers. *)
Theorem copy_nests_one_deeper (w this : t) (n : nat) :
  depth (copy w) = S (depth w)
  /\ (forall reg fockSpace fockState,
        isSatisfied reg (copy w) fockSpace fockState
        = isSatisfied reg w fockSpace fockState)
  /\ assign this w = copy w
  /\ depth (Nat.iter n copy w) = (n + depth w)%nat
  /\ (forall reg fockSpace fockState,
        isSatisfied reg (Nat.iter n copy w) fockSpace fockState
        = isSatisfied reg w fockSpace fockState).
Proof.
  assert (Hone : forall v : t,
             depth (copy v) = S (depth v)
             /\ forall reg fockSpace fockState,
                  isSatisfied reg (copy v) fockSpace fockState
                  = isSatisfied reg v fockSpace fockState).
  { intros [r]. simpl.
    destruct (FockStateRule_clone_same r) as [Hdepth Hsat].
    split; [do 2 f_equal; exact Hdepth|exact Hsat]. }
  split; [apply Hone|]. split; [apply Hone|]. split; [reflexivity|].
  induction n as [|n [IHdepth IHsat]]; [split; reflexivity|].
  change (Nat.iter (S n) copy w) with (copy (Nat.iter n copy w)).
  destruct (Hone (Nat.iter n copy w)) as [Hdepth Hsat].
  split.
  - rewrite Hdepth, IHdepth. reflexivity.
  - intros reg fockSpace fockState. rewrite Hsat. apply IHsat.
Qed.

End RulesFacts.

Lemma clone_same_answers_witness :
  depth bool (clone bool id sample_wrapper) = 2%nat
  /\ isSatisfied bool (fun _ => unit) (fun _ => unit) sample_isSatisfied
       BitRegister (clone bool id sample_wrapper) tt tt = true.
Proof.
  destruct (clone_same_answers bool (fun _ => unit) (fun _ => unit) id
              sample_isSatisfied (fun _ _ _ _ => eq_refl) sample_wrapper)
    as [Hdepth Hsat].
  split; [exact Hdepth|exact (Hsat BitRegister tt tt)].
Defined.

Lemma copy_nests_one_deeper_witness :
  depth bool (copy bool id sample_wrapper) = 3%nat
  /\ depth bool (Nat.iter 4 (copy bool id) sample_wrapper) = 6%nat
  /\ isSatisfied bool (fun _ => unit) (fun _ => unit) sample_isSatisfied
       ExtensiveBitRegister (Nat.iter 4 (copy bool id) sample_wrapper) tt tt
     = true.
Proof.
  destruct (copy_nests_one_deeper bool (fun _ => unit) (fun _ => unit) id
              sample_isSatisfied (fun _ _ _ _ => eq_refl) sample_wrapper
              sample_wrapper 4)
    as (Hdepth & _ & _ & Hiter & Hsat).
  split; [exact Hdepth|]. split; [exact Hiter|].
  exact (Hsat ExtensiveBitRegister tt tt).
Defined.

End WrapperRuleFacts.

(** ** DOS: every resolution *)

Module DOSEdgeFacts.
Import DOS.

(** X14.  The DOS constructor returns exactly when [resolution] is not
    negative, and then the data buffer is [resolution] zeros whatever the
    new cells held: with resolution 0 the buffer is empty, and what the
    allocator left in memory never shows in the object. *)
Theorem DOS_constructor_every_resolution (junk : nat -> float)
    (lowerBound upperBound : float) (resolution : Z) :
  DOS junk lowerBound upperBound resolution
  = if 0 <=? resolution then
      Returns {| lowerBound := lowerBound;
                 upperBound := upperBound;
                 resolution := resolution;
                 data := replicate (Z.to_nat resolution) 0%float |}
    else Fails.
Proof.
  unfold DOS, new_double_array.
  destruct (0 <=? resolution) eqn:Hres; [|reflexivity].
  apply Z.leb_le in Hres. simpl. do 2 f_equal.
  rewrite (DOSFacts.zero_loop_from (Z.to_nat resolution)).
  - reflexivity.
  - f_equal. lia.
  - lia.
  - rewrite length_map, length_seq. lia.
Qed.

End DOSEdgeFacts.

(** ** DiagonalizationSolver: the bounds of [getAmplitude] *)

Module DiagonalizationSolverEdgeFacts.
Import DiagonalizationSolver.

(** X15.  On a solved driver, an eigenstate number outside 0..N-1 puts the
    offset [N*state + position] outside the eigenvector buffer, for every
    index that resolves to a basis position: the call has no result
    (nothing in [getAmplitude] checks the state). *)
Theorem getAmplitude_state_out_of_range (s : t) (m : Model) (n : Z)
    (ix : Index) (b : Z) :
  isSolved s = true ->
  model s = Some m ->
  getBasisIndex m ix = Returns b ->
  0 <= b < getBasisSize m ->
  n < 0 \/ getBasisSize m <= n ->
  getAmplitude s n ix = Fails.
Proof.
  intros Hsolved Hmodel Hix Hb Hn.
  destruct (DiagonalizationSolverFacts.isSolved_inv s Hsolved)
    as (m' & values & vectors & Hm & _ & Hv & HN & _ & _ & Hlen).
  rewrite Hmodel in Hm. injection Hm as <-.
  unfold getAmplitude. rewrite Hmodel. simpl.
  unfold int_mul. destruct (in_int (getBasisSize m * n)); [|reflexivity].
  simpl. rewrite Hix. simpl.
  unfold int_add. destruct (in_int (getBasisSize m * n + b)); [|reflexivity].
  simpl. rewrite Hv. simpl. unfold subscript.
  destruct (0 <=? getBasisSize m * n + b) eqn:Hoff; [|reflexivity].
  apply Z.leb_le in Hoff.
  rewrite lookup_ge_None_2; [reflexivity|]. nia.
Qed.

Lemma getAmplitude_state_out_of_range_witness :
  isSolved solved_driver = true
  /\ getAmplitude solved_driver 2 [1] = Fails
  /\ getAmplitude solved_driver (-1) [0] = Fails.
Proof.
  split; [reflexivity|]. split.
  - apply (getAmplitude_state_out_of_range solved_driver model2 2 [1] 1);
      try reflexivity; simpl; lia.
  - apply (getAmplitude_state_out_of_range solved_driver model2 (-1) [0] 0);
      try reflexivity; simpl; lia.
Defined.

(** X16.  On a solved driver every pair of an eigenstate number and a basis
    position (both in 0..N-1) has a cell of its own in the eigenvector
    buffer: after the cell of [(n, b)] is overwritten with [v],
    [getAmplitude] returns [v] there and what it returned before at
    every other pair. *)
Theorem getAmplitude_cells_disjoint (s : t) (m : Model)
    (vectors : list complex) (n b : Z) (v : complex) :
  isSolved s = true ->
  model s = Some m ->
  eigenVectors s = Some vectors ->
  0 <= n < getBasisSize m ->
  0 <= b < getBasisSize m ->
  let s' := {| model := model s;
               hamiltonian := hamiltonian s;
               eigenValues := eigenValues s;
               eigenVectors :=
                 Some (<[Z.to_nat (getBasisSize m * n + b) := v]> vectors);
               maxIterations := maxIterations s;
               scCallback := scCallback s |} in
  (forall ix, getBasisIndex m ix = Returns b ->
              getAmplitude s' n ix = Returns v)
  /\ (forall n' ix' b',
        0 <= n' < getBasisSize m ->
        getBasisIndex m ix' = Returns b' ->
        0 <= b' < getBasisSize m ->
        n' <> n \/ b' <> b ->
        getAmplitude s' n' ix' = getAmplitude s n' ix').
Proof.
  intros Hsolved Hmodel Hvectors Hn Hb s'.
  destruct (DiagonalizationSolverFacts.isSolved_inv s Hsolved)
    as (m' & values & vectors' & Hm & _ & Hv & HN & Hmax & _ & Hlen).
  rewrite Hmodel in Hm. injection Hm as <-.
  rewrite Hvectors in Hv. injection Hv as <-.
  unfold INT_MAX in Hmax.
  assert (Hread : forall k ix c (buf : list complex) (d : t),
             model d = Some m -> eigenVectors d = Some buf ->
             0 <= k < getBasisSize m ->
             getBasisIndex m ix = Returns c -> 0 <= c < getBasisSize m ->
             getAmplitude d k ix
             = deref (buf !! Z.to_nat (getBasisSize m * k + c))).
  { intros k ix c buf d Hdm Hdv Hk Hix Hc.
    unfold getAmplitude. rewrite Hdm. simpl.
    rewrite int_mul_in_range by (unfold INT_MIN, INT_MAX; nia). simpl.
    rewrite Hix. simpl.
    rewrite int_add_in_range by (unfold INT_MIN, INT_MAX; nia). simpl.
    rewrite Hdv. simpl. unfold subscript.
    replace (0 <=? getBasisSize m * k + c) with true
      by (symmetry; apply Z.leb_le; nia).
    reflexivity. }
  split.
  - intros ix Hix.
    rewrite (Hread n ix b _ s' Hmodel eq_refl Hn Hix Hb).
    rewrite list_lookup_insert_eq by nia. reflexivity.
  - intros n' ix' b' Hn' Hix' Hb' Hne.
    rewrite (Hread n' ix' b' _ s' Hmodel eq_refl Hn' Hix' Hb').
    rewrite (Hread n' ix' b' _ s Hmodel Hvectors Hn' Hix' Hb').
    rewrite list_lookup_insert_ne; [reflexivity|].
    assert (Hoffsets : getBasisSize m * n + b <> getBasisSize m * n' + b').
    { destruct (Z.lt_trichotomy n n') as [Hlt|[Heq|Hgt]]; [nia| |nia].
      subst n'. destruct Hne as [Hne|Hne]; [congruence|lia]. }
    assert (0 <= getBasisSize m * n + b) by nia.
    assert (0 <= getBasisSize m * n' + b') by nia.
    lia.
Qed.

Lemma getAmplitude_cells_disjoint_witness :
  isSolved solved_driver = true
  /\ getAmplitude
       {| model := Some model2;
          hamiltonian := hamiltonian solved_driver;
          eigenValues := eigenValues solved_driver;
          eigenVectors :=
            Some [cplx 0.5 0; cplx 9 9; cplx 0.5 0; cplx 0.25 0];
          maxIterations := 50;
          scCallback := None |} 1 [1]
     = getAmplitude solved_driver 1 [1].
Proof.
  split; [reflexivity|].
  destruct (getAmplitude_cells_disjoint solved_driver model2
              [cplx 0.5 0; cplx (-0.5) 0; cplx 0.5 0; cplx 0.25 0]
              0 1 (cplx 9 9) eq_refl eq_refl eq_refl) as [_ Hother];
    [simpl; lia|simpl; lia|].
  apply (Hother 1 [1] 1); [simpl; lia|reflexivity|simpl; lia|left; lia].
Defined.

End DiagonalizationSolverEdgeFacts.
